(** * smtp2graph: the SMTP transaction engine and its relay to the Graph API

    A shallow embedding of the per-connection [Session] and its command
    handlers ([main.go]), of the relay handler with its cached access
    token, its encoding of a message and its raw MIME relay call
    ([graphmailhandler.go]) and of the loading of the configuration
    ([config.go]), together with the properties of the transaction state
    machine, the envelope reconciliation, the credential cache, the relay
    and the configuration.

    Conventions.  Go strings and byte slices are [string] (one [ascii] per
    byte).  Go's [int] and [int64] are [Z]; the one subtraction on [int64]
    ([tokenExp - 60]) carries its wrap-around.  [map[string][]string] is
    [gmap string (list string)], [map[string]struct{}] is [gset string].  A
    method with a pointer receiver takes the receiver's state and returns
    the new one next to its Go result; a Go [error] result is an
    [option error] ([None] is [nil]). *)

From stdpp Require Import base strings list gmap.
From Stdlib Require Import ZArith Lia Ascii.

(** ** Errors *)

(** [smtp.SMTPError] of go-smtp. *)
Module smtp.
Record SMTPError := {
  Code : Z;
  EnhancedCode : Z * Z * Z;
  Message : string;
}.
End smtp.

(** The Go [error] values that travel through the gateway: an
    [*smtp.SMTPError], or any other error, of which only the text
    ([err.Error()]) is ever observed. *)
Inductive error :=
| ESmtp (e : smtp.SMTPError)
| EText (msg : string).

(** [newSMTPError]: builds the error; the report to Sentry does not change
    the value returned. *)
Definition newSMTPError (code : Z) (enhanced : Z * Z * Z) (message : string) : error :=
  ESmtp {| smtp.Code := code; smtp.EnhancedCode := enhanced; smtp.Message := message |}.

(** [fmt.Errorf("<prefix>: %w", err)] on an error text. *)
Definition Errorf_w (pfx : string) (err : string) : string := pfx +:+ ": " +:+ err.

(** The error taxonomy of the specification (section 7), read off the SMTP
    reply code and text each error is mapped to. *)
Inductive ErrorKind :=
| AuthenticationError
| SequenceError
| AddressSyntaxError
| MessageFormatError
| RelayError.

Definition classify (e : error) : option ErrorKind :=
  match e with
  | ESmtp e =>
      if (smtp.Code e =? 530)%Z then Some AuthenticationError
      else if (smtp.Code e =? 503)%Z then Some SequenceError
      else if (smtp.Code e =? 550)%Z then
        if decide (smtp.EnhancedCode e = (5, 6, 0)%Z) then Some MessageFormatError
        else Some AddressSyntaxError
      else if (smtp.Code e =? 554)%Z then Some RelayError
      else None
  | EText m =>
      if decide (m = "invalid username or password") then Some AuthenticationError
      else None
  end.

(** ** The [net/mail] data the gateway handles *)

(** [mail.Address]. *)
Record Address := {
  Name : string;
  Addr : string;  (* Go field [Address] *)
}.

(** [mail.Message]: the header map and the body (a reader that the relay
    reads once, to its end). *)
Record Message := {
  Header : gmap string (list string);
  Body : string;
}.

#[global] Instance Address_eq_dec : EqDecision Address.
Proof. solve_decision. Defined.

Definition CRLF : string := String "013"%char (String "010"%char "").

(** [Header.Get]: the first value of the key, or the empty string.  The
    keys the gateway asks for ("To", "Cc", "Bcc", "From") are in canonical
    MIME form already. *)
Definition Get (h : gmap string (list string)) (key : string) : string :=
  match h !! key with
  | Some (v :: _) => v
  | _ => ""
  end.

(** [strings.Join]. *)
Fixpoint Join (elems : list string) (sep : string) : string :=
  match elems with
  | [] => ""
  | [x] => x
  | x :: rest => x +:+ sep +:+ Join rest sep
  end.

(** The functions of [net/mail] that the gateway calls; their code is the
    Go standard library's, so they are an interface here. *)
Class NetMail := {
  ParseAddress : string → option Address;
  ParseAddressList : string → option (list Address);
  AddressString : Address → string;  (* the method [Address.String] *)
  ReadMessage : string → option Message;
}.

(** [Header.AddressList]: [ErrHeaderNotPresent] when [Get] gives the empty
    string, else the parse of that first value. *)
Definition AddressList `{NM : NetMail} (h : gmap string (list string)) (key : string)
  : option (list Address) :=
  let hdr := Get h key in
  if decide (hdr = "") then None else ParseAddressList hdr.

(** An [io.Reader] read to its end: the bytes it yields, and the error (if
    any) that ends the read instead of EOF. *)
Record Reader := {
  rdBytes : string;
  rdErr : option string;
}.

(** [io.ReadAll]. *)
Definition ReadAll (r : Reader) : string * option string := (rdBytes r, rdErr r).

(** ** crypto/subtle *)

Definition byte_val (c : ascii) : Z := Z.of_N (N_of_ascii c).

(** The loop [v |= x[i] ^ y[i]] over two byte strings of equal length;
    [v] is a byte, and stays one. *)
Fixpoint xor_acc (v : Z) (x y : string) : Z :=
  match x, y with
  | String a x', String b y' => xor_acc (Z.lor v (Z.lxor (byte_val a) (byte_val b))) x' y'
  | _, _ => v
  end.

(** [subtle.ConstantTimeByteEq] on two bytes:
    [int((uint32(x^y) - 1) >> 31)]. *)
Definition ConstantTimeByteEq (x y : Z) : Z :=
  Z.shiftr ((Z.lxor x y - 1) mod 2 ^ 32) 31.

(** [subtle.ConstantTimeCompare]. *)
Definition ConstantTimeCompare (x y : string) : Z :=
  if negb (String.length x =? String.length y)%nat then 0%Z
  else ConstantTimeByteEq (xor_acc 0 x y) 0.

(** ** Session (main.go) *)

(** The two fields of [Config] the session reads. *)
Record Config := {
  SenderEmail : string;
  SenderPassword : string;
}.

(** [Handler]: the capability to relay one message.  [message] returns the
    text of its error, and the handler's own new state. *)
Class Handler (H : Type) := message : H → Message → option string * H.

(** The mutable fields of [Session]; [config] and [handler] are passed to
    the methods that use them. *)
Record Session := {
  auth : bool;
  sender : option Address;
  recipients : list Address;
}.

(** [Backend.NewSession]. *)
Definition NewSession : Session :=
  {| auth := false; sender := None; recipients := [] |}.

(** [Session.Auth]: the callback handed to [sasl.NewPlainServer], run on the
    decoded PLAIN triple (authorization identity, username, password).
    [mech] and the authorization identity are not looked at. *)
Definition Auth (cfg : Config) (mech : string) (s : Session)
    (authzid username password : string) : option error * Session :=
  let usernameMatch := (ConstantTimeCompare username (SenderEmail cfg) =? 1)%Z in
  let passwordMatch := (ConstantTimeCompare password (SenderPassword cfg) =? 1)%Z in
  if negb usernameMatch || negb passwordMatch then
    (Some (EText "invalid username or password"), s)
  else
    (None, {| auth := true; sender := sender s; recipients := recipients s |}).

(** [Session.Mail]. *)
Definition Mail `{NM : NetMail} (s : Session) (from : string) : option error * Session :=
  if negb (auth s) then
    (Some (newSMTPError 530 (5, 7, 0)%Z "authentication required"), s)
  else if bool_decide (sender s ≠ None) then
    (Some (newSMTPError 503 (5, 5, 1)%Z "sender already specified"), s)
  else if (0 <? length (recipients s))%nat then
    (Some (newSMTPError 503 (5, 5, 1)%Z
             "bad sequence of commands: MAIL FROM after RCPT TO"), s)
  else
    match ParseAddress from with
    | None => (Some (newSMTPError 550 (5, 1, 7)%Z "invalid sender address"), s)
    | Some addr =>
        (None, {| auth := auth s; sender := Some addr; recipients := recipients s |})
    end.

(** [Session.Rcpt]. *)
Definition Rcpt `{NM : NetMail} (s : Session) (to : string) : option error * Session :=
  if negb (auth s) then
    (Some (newSMTPError 530 (5, 7, 0)%Z "authentication required"), s)
  else if bool_decide (sender s = None) then
    (Some (newSMTPError 503 (5, 5, 1)%Z
             "bad sequence of commands: RCPT TO before MAIL FROM"), s)
  else
    match ParseAddress to with
    | None => (Some (newSMTPError 550 (5, 1, 3)%Z "invalid recipient address"), s)
    | Some addr =>
        (None, {| auth := auth s; sender := sender s;
                  recipients := recipients s ++ [addr] |})
    end.

(** [Session.Reset]. *)
Definition Reset (s : Session) : Session :=
  {| auth := auth s; sender := None; recipients := [] |}.

(** [Session.Logout]. *)
Definition Logout (s : Session) : option error * Session := (None, s).

(** *** [Session.Data] *)

(** The fallback of [Data]: the raw bytes wrapped in a minimal message, as
    the sequence of writes to [buf]. *)
Definition Data_fallback `{NM : NetMail} (snd : Address) (rcpts : list Address) (b : string)
  : string :=
  let from := AddressString snd in
  let toList := AddressString <$> rcpts in
  let to := Join toList ", " in
  ("From: " +:+ from +:+ CRLF) +:+
  ("To: " +:+ to +:+ CRLF) +:+
  ("Subject: (no subject)" +:+ CRLF) +:+
  ("Content-Type: text/plain; charset=utf-8" +:+ CRLF) +:+
  CRLF +:+
  b.

(** Parse the bytes as a message, or else the fallback; [None] is the
    "invalid message format" exit. *)
Definition Data_parse `{NM : NetMail} (snd : Address) (rcpts : list Address) (b : string)
  : option Message :=
  match ReadMessage b with
  | Some msg => Some msg
  | None => ReadMessage (Data_fallback snd rcpts b)
  end.

(** The set of all addresses found in the To, Cc and Bcc headers. *)
Definition addAddrs (set : gset string) (addrs : list Address) : gset string :=
  foldl (λ acc addr, {[Addr addr]} ∪ acc) set addrs.

Definition recipientSet `{NM : NetMail} (h : gmap string (list string)) : gset string :=
  foldl (λ acc header,
           match AddressList h header with
           | Some addrs => addAddrs acc addrs
           | None => acc
           end)
        ∅ ["To"; "Cc"; "Bcc"].

(** The recipients given to RCPT TO but missing from the headers. *)
Fixpoint missingRecipients `{NM : NetMail} (set : gset string) (rcpts : list Address)
  : list string :=
  match rcpts with
  | [] => []
  | rcpt :: rest =>
      if decide (Addr rcpt ∈ set) then missingRecipients set rest
      else AddressString rcpt :: missingRecipients set rest
  end.

(** The Bcc patch of [Data]. *)
Definition Data_bcc `{NM : NetMail} (h : gmap string (list string)) (rcpts : list Address)
  : gmap string (list string) :=
  let missing := missingRecipients (recipientSet h) rcpts in
  if (0 <? length missing)%nat then
    let oldBcc := Get h "Bcc" in
    let missingStr := Join missing ", " in
    if decide (oldBcc ≠ "") then <["Bcc" := [oldBcc +:+ ", " +:+ missingStr]]> h
    else <["Bcc" := [missingStr]]> h
  else h.

(** The From patch of [Data]. *)
Definition Data_from `{NM : NetMail} (h : gmap string (list string)) (snd : option Address)
  : gmap string (list string) :=
  match snd with
  | Some a =>
      let found :=
        match AddressList h "From" with
        | Some fromAddrs => existsb (λ addr, bool_decide (Addr addr = Addr a)) fromAddrs
        | None => false
        end in
      if negb found then <["From" := [AddressString a]]> h else h
  | None => h
  end.

(** The message [Data] hands to the handler: both patches, in the order
    of the code, on the header map of the parsed message. *)
Definition Data_reconcile `{NM : NetMail} (msg : Message) (s : Session) : Message :=
  {| Header := Data_from (Data_bcc (Header msg) (recipients s)) (sender s);
     Body := Body msg |}.

Definition Data `{NM : NetMail} {H : Type} `{Handler H} (s : Session) (hd : H) (r : Reader)
  : option error * Session * H :=
  if negb (auth s) then
    (Some (newSMTPError 530 (5, 7, 0)%Z "authentication required"), s, hd)
  else
    match sender s with
    | None => (Some (newSMTPError 503 (5, 5, 1)%Z "sender not specified"), s, hd)
    | Some snd =>
        if (length (recipients s) =? 0)%nat then
          (Some (newSMTPError 503 (5, 5, 1)%Z "no recipients specified"), s, hd)
        else
          match ReadAll r with
          | (_, Some e) => (Some (EText e), s, hd)
          | (b, None) =>
              match Data_parse snd (recipients s) b with
              | None =>
                  (Some (newSMTPError 550 (5, 6, 0)%Z "invalid message format"), s, hd)
              | Some msg =>
                  let '(err, hd') := message hd (Data_reconcile msg s) in
                  match err with
                  | Some e => (Some (newSMTPError 554 (5, 3, 0)%Z e), s, hd')
                  | None => (None, s, hd')
                  end
              end
          end
    end.

(** [mockHandler] of the session tests: records the call, returns [err]. *)
Record mockHandler := {
  called : bool;
  msg : option Message;
  err : option string;
}.

#[global] Instance mockHandler_message : Handler mockHandler :=
  λ m msg0, (err m, {| called := true; msg := Some msg0; err := err m |}).

(** ** The commands of a connection, as the protocol server invokes them *)

Inductive Command :=
| CAuth (authzid username password : string)
| CMail (from : string)
| CRcpt (to : string)
| CData (r : Reader)
| CReset
| CLogout.

Definition exec `{NM : NetMail} {H : Type} `{Handler H} (cfg : Config) (c : Command)
    (st : Session * H) : option error * (Session * H) :=
  let '(s, hd) := st in
  match c with
  | CAuth authzid username password =>
      let '(e, s') := Auth cfg "PLAIN" s authzid username password in (e, (s', hd))
  | CMail from => let '(e, s') := Mail s from in (e, (s', hd))
  | CRcpt to => let '(e, s') := Rcpt s to in (e, (s', hd))
  | CData r => let '(e, s', hd') := Data s hd r in (e, (s', hd'))
  | CReset => (None, (Reset s, hd))
  | CLogout => let '(e, s') := Logout s in (e, (s', hd))
  end.

(** The state after a whole dialogue. *)
Definition run `{NM : NetMail} {H : Type} `{Handler H} (cfg : Config) (cs : list Command)
    (st : Session * H) : Session * H :=
  foldl (λ st c, (exec cfg c st).2) st cs.

(** ** Credential cache (graphmailhandler.go) *)

(** The cached fields of [GraphMailHandler]. *)
Record GraphMailHandler := {
  token : string;
  tokenExp : Z;  (* Unix seconds, int64 *)
}.

(** [azcore.AccessToken], with [ExpiresOn] already as [ExpiresOn.Unix()]. *)
Record AccessToken := {
  Token : string;
  ExpiresOn : Z;
}.

(** Signed 64-bit wrap-around. *)
Definition wrap64 (z : Z) : Z := ((z + 2 ^ 63) mod 2 ^ 64 - 2 ^ 63)%Z.

Definition scope : list string := ["https://graph.microsoft.com/.default"].

(** [getCachedToken], run at clock value [now].  [GetToken] is the answer
    the token source gives when asked; the third component lists the
    requests made to it (the scopes of each). *)
Definition getCachedToken (GetToken : list string → string + AccessToken) (now : Z)
    (h : GraphMailHandler)
  : (string * option string) * GraphMailHandler * list (list string) :=
  if bool_decide (token h = "") || (now >? wrap64 (tokenExp h - 60))%Z then
    match GetToken scope with
    | inl err => (("", Some (Errorf_w "GetToken" err)), h, [scope])
    | inr tok =>
        let h' := {| token := Token tok; tokenExp := ExpiresOn tok |} in
        ((token h', None), h', [scope])
    end
  else ((token h, None), h, []).

(** ** Relay client (graphmailhandler.go) *)

Record Request := {
  Method : string;
  URL : string;
  ReqHeader : gmap string (list string);
  ReqBody : string;
}.

Record Response := {
  StatusCode : Z;
  Status : string;
  RespBody : Reader;
}.

Definition StatusAccepted : Z := 202.

(** What [net/http] and [encoding/base64] do for [sendRawMimeMail]. *)
Class NetHTTP := {
  NewRequestWithContext : string → string → string → string + Request;
  Do : Request → string + Response;
  EncodeToString : string → string;
}.

(** [http.Header.Set]. *)
Definition HeaderSet (r : Request) (k v : string) : Request :=
  {| Method := Method r; URL := URL r;
     ReqHeader := <[k := [v]]> (ReqHeader r); ReqBody := ReqBody r |}.

(** The request as [sendRawMimeMail] sends it: the new request with its
    two headers set. *)
Definition sendMail_request (accessToken : string) (req : Request) : Request :=
  HeaderSet (HeaderSet req "Authorization" ("Bearer " +:+ accessToken))
            "Content-Type" "text/plain".

(** [sendRawMimeMail]; [None] is success, [Some] the text of the error. *)
Definition sendRawMimeMail `{W : NetHTTP} (accessToken userID mimeMessage : string)
  : option string :=
  let url := "https://graph.microsoft.com/v1.0/users/" +:+ userID +:+ "/sendMail" in
  let encoded := EncodeToString mimeMessage in
  match NewRequestWithContext "POST" url encoded with
  | inl err => Some (Errorf_w "NewRequestWithContext" err)
  | inr req =>
      let req := HeaderSet req "Authorization" ("Bearer " +:+ accessToken) in
      let req := HeaderSet req "Content-Type" "text/plain" in
      match Do req with
      | inl err => Some (Errorf_w "http.Do" err)
      | inr resp =>
          if negb (StatusCode resp =? StatusAccepted)%Z then
            let '(b, _) := ReadAll (RespBody resp) in
            Some ("sendMail failed: " +:+ Status resp +:+ String "010"%char b)
          else None
      end
  end.

(** ** A small executable [net/mail]

    Enough of the library to run whole dialogues: addresses are bare or
    angle-bracketed addr-specs without display name, address lists are
    comma-separated, and a message is a block of unfolded header lines
    (keys of letters, digits and hyphens), a blank line and the body.  On
    such input it answers as [net/mail] does. *)
Module SimpleMail.

Definition isSpace (c : ascii) : bool :=
  bool_decide (c = " "%char) || bool_decide (c = "009"%char).

Fixpoint trimLeft (s : string) : string :=
  match s with
  | String c s' => if isSpace c then trimLeft s' else s
  | "" => ""
  end.

Fixpoint trimRight (s : string) : string :=
  match s with
  | String c s' =>
      let t := trimRight s' in
      if isSpace c && bool_decide (t = "") then "" else String c t
  | "" => ""
  end.

Definition trim (s : string) : string := trimRight (trimLeft s).

Fixpoint split (sep : ascii) (s : string) : list string :=
  match s with
  | "" => [""]
  | String c s' =>
      if bool_decide (c = sep) then "" :: split sep s'
      else match split sep s' with
           | x :: xs => String c x :: xs
           | [] => [String c ""]
           end
  end.

Fixpoint count (c : ascii) (s : string) : nat :=
  match s with
  | "" => 0
  | String d s' => (if bool_decide (c = d) then 1 else 0) + count c s'
  end.

Fixpoint forallb_string (p : ascii → bool) (s : string) : bool :=
  match s with
  | "" => true
  | String c s' => p c && forallb_string p s'
  end.

Definition between (lo hi n : nat) : bool := (lo <=? n)%nat && (n <=? hi)%nat.

Definition isAtomChar (c : ascii) : bool :=
  let n := nat_of_ascii c in
  between 48 57 n || between 65 90 n || between 97 122 n
  || bool_decide (c = "."%char) || bool_decide (c = "-"%char)
  || bool_decide (c = "_"%char) || bool_decide (c = "+"%char).

(** local@domain, both sides non-empty runs of atom characters. *)
Definition validAddrSpec (s : string) : bool :=
  match split "@"%char s with
  | [l; d] =>
      negb (bool_decide (l = "")) && negb (bool_decide (d = ""))
      && forallb_string isAtomChar l && forallb_string isAtomChar d
  | _ => false
  end.

Fixpoint dropLast (s : string) : string :=
  match s with
  | "" => ""
  | String c "" => ""
  | String c s' => String c (dropLast s')
  end.

Fixpoint lastChar (s : string) : option ascii :=
  match s with
  | "" => None
  | String c "" => Some c
  | String _ s' => lastChar s'
  end.

Definition unbracket (s : string) : string :=
  match s with
  | String "<"%char s' =>
      if bool_decide (lastChar s' = Some ">"%char) then dropLast s' else s
  | _ => s
  end.

Definition parseAddress (s : string) : option Address :=
  let a := unbracket (trim s) in
  if validAddrSpec a then Some {| Name := ""; Addr := a |} else None.

Definition parseAddressList (s : string) : option (list Address) :=
  mapM parseAddress (split ","%char s).

Definition quote : string := String "034"%char "".

Definition addressString (a : Address) : string :=
  if bool_decide (Name a = "") then "<" +:+ Addr a +:+ ">"
  else quote +:+ Name a +:+ quote +:+ " <" +:+ Addr a +:+ ">".

(** The first line of [s] (without its LF) and what follows it. *)
Fixpoint cutLine (s : string) : option (string * string) :=
  match s with
  | "" => None
  | String c rest =>
      if bool_decide (c = "010"%char) then Some ("", rest)
      else match cutLine rest with
           | Some (l, r) => Some (String c l, r)
           | None => None
           end
  end.

Definition stripCR (s : string) : string :=
  if bool_decide (lastChar s = Some "013"%char) then dropLast s else s.

Definition isKeyChar (c : ascii) : bool :=
  let n := nat_of_ascii c in
  between 48 57 n || between 65 90 n || between 97 122 n
  || bool_decide (c = "-"%char).

Definition toUpper (c : ascii) : ascii :=
  let n := nat_of_ascii c in
  if between 97 122 n then ascii_of_nat (n - 32) else c.

Definition toLower (c : ascii) : ascii :=
  let n := nat_of_ascii c in
  if between 65 90 n then ascii_of_nat (n + 32) else c.

(** [textproto.CanonicalMIMEHeaderKey] on a valid key. *)
Fixpoint canonical (upper : bool) (s : string) : string :=
  match s with
  | "" => ""
  | String c s' =>
      String (if upper then toUpper c else toLower c)
             (canonical (bool_decide (c = "-"%char)) s')
  end.

(** Key and value of a header line. *)
Definition splitLine (line : string) : option (string * string) :=
  match split ":"%char line with
  | k :: v :: vs =>
      if negb (bool_decide (k = "")) && forallb_string isKeyChar k then
        Some (canonical true k, trim (Join (v :: vs) ":"))
      else None
  | _ => None
  end.

Fixpoint readHeader (fuel : nat) (s : string) (h : gmap string (list string))
  : option (gmap string (list string) * string) :=
  match fuel with
  | 0 => None
  | S fuel' =>
      match cutLine s with
      | None => None
      | Some (line, rest) =>
          let line := stripCR line in
          if bool_decide (line = "") then Some (h, rest)
          else match splitLine line with
               | Some (k, v) => readHeader fuel' rest (<[k := (h !!! k ++ [v])%list]> h)
               | None => None
               end
      end
  end.

Definition readMessage (b : string) : option Message :=
  match readHeader (S (String.length b)) b ∅ with
  | Some (h, body) => Some {| Header := h; Body := body |}
  | None => None
  end.

#[global] Instance netMail : NetMail := {|
  ParseAddress := parseAddress;
  ParseAddressList := parseAddressList;
  AddressString := addressString;
  ReadMessage := readMessage;
|}.

End SimpleMail.

(** ** Fixtures of the session tests *)

Definition testConfig : Config :=
  {| SenderEmail := "sender@example.com"; SenderPassword := "password" |}.

Definition testHandler : mockHandler :=
  {| called := false; msg := None; err := None |}.

(** A handler whose relay fails. *)
Definition failingHandler : mockHandler :=
  {| called := false; msg := None; err := Some "sendRawMimeMail: http.Do: timeout" |}.

(** ** The wire form of a message, and what reading it back means *)

(** A block of header lines, a blank line, the body. *)
Definition wireForm (lines : list (string * string)) (body : string) : string :=
  foldr (λ '(k, v) acc, k +:+ ": " +:+ v +:+ CRLF +:+ acc) (CRLF +:+ body) lines.

(** The header map of a block of lines: each value is appended to the
    values of its key. *)
Definition headerOf (lines : list (string * string)) : gmap string (list string) :=
  foldl (λ h '(k, v), <[k := (h !!! k ++ [v])%list]> h) ∅ lines.

(** The library reads a wire form back as the message it renders. *)
Definition reads_back `{NM : NetMail} (lines : list (string * string)) (body : string) : Prop :=
  ReadMessage (wireForm lines body) = Some {| Header := headerOf lines; Body := body |}.

(** The four header lines of the fallback message. *)
Definition fallbackLines `{NM : NetMail} (snd : Address) (rcpts : list Address)
  : list (string * string) :=
  [ ("From", AddressString snd);
    ("To", Join (AddressString <$> rcpts) ", ");
    ("Subject", "(no subject)");
    ("Content-Type", "text/plain; charset=utf-8") ].

(** [s] occurs in [t]. *)
Fixpoint isInfix (s t : string) : bool :=
  String.prefix s t ||
  match t with
  | String _ t' => isInfix s t'
  | "" => false
  end.

(** The address [x] is one of those the header [key] of [h] lists. *)
Definition lists_address `{NM : NetMail} (h : gmap string (list string)) (key : string)
    (x : string) : Prop :=
  ∃ addrs a, AddressList h key = Some addrs ∧ a ∈ addrs ∧ Addr a = x.

(** The requests a call of [getCachedToken] made to the token source. *)
Definition contacts (GetToken : list string → string + AccessToken) (now : Z)
    (h : GraphMailHandler) : list (list string) :=
  (getCachedToken GetToken now h).2.

Definition int64 (z : Z) : Prop := (- 2 ^ 63 ≤ z < 2 ^ 63)%Z.


(** ** Dialogues *)

(** The states a connection can be in: a new session, then any commands. *)
Inductive reachable `{NM : NetMail} {H : Type} `{Handler H} (cfg : Config)
  : Session * H → Prop :=
| reach_new hd : reachable cfg (NewSession, hd)
| reach_step st c : reachable cfg st → reachable cfg (exec cfg c st).2.

(** The session of the tests after a successful AUTH. *)
Definition authedSession : Session :=
  (run (NM := SimpleMail.netMail) testConfig
       [CAuth "" "sender@example.com" "password"] (NewSession, testHandler)).1.

(** ... and after MAIL FROM and two RCPT TO. *)
Definition openSession : Session :=
  (run (NM := SimpleMail.netMail) testConfig
       [CAuth "" "sender@example.com" "password";
        CMail "sender@example.com";
        CRcpt "recipient1@example.com";
        CRcpt "recipient2@example.com"] (NewSession, testHandler)).1.

Definition bytesReader (b : string) : Reader := {| rdBytes := b; rdErr := None |}.

(** The message of the session test. *)
Definition testMessage : string :=
  "From: sender@example.com" +:+ CRLF +:+
  "To: recipient1@example.com, recipient2@example.com" +:+ CRLF +:+
  "Subject: Test" +:+ CRLF +:+ CRLF +:+ "Hello World" +:+ CRLF.

(** ** Statements that are put to the test below *)

(** A successful [Data] clears the envelope by itself. *)
Definition Data_success_clears `{NM : NetMail} {H : Type} `{Handler H}
    (s : Session) (hd : H) (r : Reader) : Prop :=
  ∀ s' hd', Data s hd r = (None, s', hd') →
    sender s' = None ∧ recipients s' = [] ∧ auth s' = true.

(** [getCachedToken] asks the token source exactly when the token is empty
    or the credential is not valid, valid meaning [now < expiresAt - 60]. *)
Definition getCachedToken_refreshes_unless_before
    (GetToken : list string → string + AccessToken) (now : Z)
    (h : GraphMailHandler) : Prop :=
  contacts GetToken now h ≠ [] ↔ token h = "" ∨ ¬ (now < tokenExp h - 60)%Z.

(** Every value the Bcc header had is still to be found in the Bcc header
    after the patch. *)
Definition Bcc_values_kept `{NM : NetMail} (h : gmap string (list string))
    (rcpts : list Address) : Prop :=
  ∀ v, v ∈ h !!! "Bcc" → ∃ v', v' ∈ Data_bcc h rcpts !!! "Bcc" ∧ isInfix v v' = true.

(** The header of a message that carries two Bcc lines. *)
Definition twoBccLines : list (string * string) :=
  [ ("From", "sender@example.com");
    ("To", "recipient1@example.com");
    ("Bcc", "x@example.com");
    ("Bcc", "y@example.com") ].

(** A relay API that accepts any request and answers [reply]; the payload
    encoding, which no reply depends on, is left out. *)
Definition httpReplying (reply : string + Response) : NetHTTP := {|
  NewRequestWithContext := λ method url body,
    inr {| Method := method; URL := url; ReqHeader := ∅; ReqBody := body |};
  Do := λ _, reply;
  EncodeToString := λ b, b;
|}.

Fixpoint repeatChar (c : ascii) (n : nat) : string :=
  match n with
  | 0 => ""
  | S n' => String c (repeatChar c n')
  end.

(** The reply the relay API gives on a refused message, with a body of
    [n] bytes. *)
Definition refusal (n : nat) : Response :=
  {| StatusCode := 500; Status := "500 Internal Server Error";
     RespBody := bytesReader (repeatChar "x"%char n) |}.

(** The error of a refused send carries the status and at most [N] bytes
    read from the body of the reply. *)
Definition send_error_bounded (N : nat) : Prop :=
  ∀ (resp : Response) (accessToken userID mimeMessage e : string),
    sendRawMimeMail (W := httpReplying (inr resp)) accessToken userID mimeMessage
      = Some e →
    (String.length e ≤
       String.length "sendMail failed: " + String.length (Status resp) + 1 + N)%nat.

(** ** Dialogues and credentials *)

(** [Session.AuthMechanisms]: only PLAIN ([sasl.Plain]). *)
Definition AuthMechanisms : list string := ["PLAIN"].

(** The command is an AUTH that presents the configured credentials. *)
Definition authenticates (cfg : Config) (c : Command) : Prop :=
  match c with
  | CAuth _ u p => u = SenderEmail cfg ∧ p = SenderPassword cfg
  | _ => False
  end.

(** ** The relay handler (graphmailhandler.go) *)

(** The cache of a handler as [NewGraphMailHandler] returns it: no token,
    expiry zero. *)
Definition NewGraphMailHandler : GraphMailHandler := {| token := ""; tokenExp := 0 |}.

(** [encodeMailMessage].  [order] is the order in which the [range] over
    the header map visits its keys (each key once, in an order Go does
    not fix).  Writing to the buffer does not fail and the body is in
    memory already, so no error result is taken. *)
Definition encodeMailMessage (order : list string) (msg : Message) : string + string :=
  let buf :=
    foldl (λ buf k,
             foldl (λ buf vv, buf +:+ (k +:+ ": " +:+ vv +:+ CRLF)) buf (Header msg !!! k))
          "" order in
  let buf := buf +:+ CRLF in
  let buf := buf +:+ Body msg in
  inr buf.

(** The header lines in the order [encodeMailMessage] writes them. *)
Definition headerLines (order : list string) (h : gmap string (list string))
  : list (string * string) :=
  k ← order; (λ v, (k, v)) <$> h !!! k.

(** [order] visits the keys of [h], each once. *)
Definition ranges_over (order : list string) (h : gmap string (list string)) : Prop :=
  NoDup order ∧ ∀ k, k ∈ order ↔ is_Some (h !! k).

(** What lies outside the handler when [message] runs: the clock, the
    token source, the relay API and the order of the range over the
    header map. *)
Record GraphWorld := {
  wNow : Z;
  wGetToken : list string → string + AccessToken;
  wHTTP : NetHTTP;
  wRange : gmap string (list string) → list string;
}.

(** [GraphMailHandler.message]. *)
Definition GraphMailHandler_message (cfg : Config) (w : GraphWorld)
    (h : GraphMailHandler) (msg : Message) : option string * GraphMailHandler :=
  match encodeMailMessage (wRange w (Header msg)) msg with
  | inl err => (Some (Errorf_w "encodeMailMessage" err), h)
  | inr mimeMessage =>
      let '((accessToken, err), h', _) := getCachedToken (wGetToken w) (wNow w) h in
      match err with
      | Some e => (Some (Errorf_w "getCachedToken" e), h')
      | None =>
          match sendRawMimeMail (W := wHTTP w) accessToken (SenderEmail cfg) mimeMessage with
          | Some e => (Some (Errorf_w "sendRawMimeMail" e), h')
          | None => (None, h')
          end
      end
  end.

(** [GraphMailHandler] implements [Handler]. *)
Definition graphHandler (cfg : Config) (w : GraphWorld) : Handler GraphMailHandler :=
  GraphMailHandler_message cfg w.

(** A world for the examples: the hour 1000, a token source that grants
    a token for an hour, the relay API answering [reply], keys ranged over
    in the order of the map's listing. *)
Definition testWorld (reply : string + Response) : GraphWorld := {|
  wNow := 1000;
  wGetToken := λ _, inr {| Token := "granted"; ExpiresOn := 4600 |};
  wHTTP := httpReplying reply;
  wRange := λ h, (map_to_list h).*1;
|}.

(** ** Configuration (config.go) *)

(** [strconv.ParseUint(s, 10, bitSize)], with its loop over the bytes of
    [s] on [uint64]: a digit is shifted in unless the product or the sum
    overflows or passes the largest value of [bitSize] bits.  [None] is
    any of its errors. *)
Module strconv.

(** The size of [int]; the gateway is built for 64-bit platforms. *)
Definition IntSize : Z := 64.

Definition maxUint64 : Z := 2 ^ 64 - 1.

(** The smallest number such that [cutoff * 10 > maxUint64]. *)
Definition cutoff : Z := maxUint64 / 10 + 1.

Fixpoint parseLoop (maxVal n : Z) (s : string) : option Z :=
  match s with
  | "" => Some n
  | String c s' =>
      let b := byte_val c in
      if (48 <=? b)%Z && (b <=? 57)%Z then
        let d := (b - 48)%Z in
        if (n >=? cutoff)%Z then None
        else
          let n := ((n * 10) mod 2 ^ 64)%Z in
          let n1 := ((n + d) mod 2 ^ 64)%Z in
          if (n1 <? n)%Z || (n1 >? maxVal)%Z then None
          else parseLoop maxVal n1 s'
      else None
  end.

Definition ParseUint (s : string) (bitSize : Z) : option Z :=
  if bool_decide (s = "") then None
  else
    let bitSize := if (bitSize =? 0)%Z then IntSize else bitSize in
    if (bitSize <? 0)%Z || (bitSize >? 64)%Z then None
    else parseLoop (2 ^ bitSize - 1) 0 s.

End strconv.

(** The bytes of [s] are decimal digits. *)
Fixpoint digits (s : string) : bool :=
  match s with
  | "" => true
  | String c s' => (48 <=? byte_val c)%Z && (byte_val c <=? 57)%Z && digits s'
  end.

(** The number that the digits of [s] write after those of [n]. *)
Fixpoint decimalFrom (n : Z) (s : string) : Z :=
  match s with
  | "" => n
  | String c s' => decimalFrom (n * 10 + (byte_val c - 48)) s'
  end.

Definition decimal (s : string) : Z := decimalFrom 0 s.

(** [time.ParseDuration], in nanoseconds; the code is the Go standard
    library's. *)
Class TimeLib := {
  ParseDuration : string → option Z;
}.

Definition Second : Z := 1000000000.

(** [os.Getenv] on the environment of the process: the value of the
    variable, empty when it is not set. *)
Definition Getenv (env : gmap string string) (key : string) : string :=
  default "" (env !! key).

Module config.

(** [Config]. *)
Record Config := {
  SMTPAddr : string;
  SMTPDomain : string;
  MaxMessageBytes : Z;
  MaxRecipients : Z;
  WriteTimeout : Z;
  ReadTimeout : Z;
  SenderEmail : string;
  SenderPassword : string;
  EntraClientID : string;
  EntraTenantID : string;
  EntraClientSecret : string;
  SentryDSN : string;
}.

(** [getenv]. *)
Definition getenv (env : gmap string string) (key def : string) : string :=
  let val := Getenv env key in
  if bool_decide (val ≠ "") then val else def.

(** [getenvInt]; [int(u)] wraps to the 64 bits of [int]. *)
Definition getenvInt (env : gmap string string) (key : string) (def : Z) : Z :=
  let val := Getenv env key in
  if bool_decide (val = "") then def
  else
    match strconv.ParseUint val 0 with
    | None => def
    | Some u => if (u =? 0)%Z then def else wrap64 u
    end.

(** [getenvInt64]. *)
Definition getenvInt64 (env : gmap string string) (key : string) (def : Z) : Z :=
  let val := Getenv env key in
  if bool_decide (val = "") then def
  else
    match strconv.ParseUint val 64 with
    | None => def
    | Some u => if (u =? 0)%Z then def else wrap64 u
    end.

(** [getenvDuration]. *)
Definition getenvDuration `{TL : TimeLib} (env : gmap string string) (key : string)
    (def : Z) : Z :=
  let val := Getenv env key in
  if bool_decide (val = "") then def
  else
    match ParseDuration val with
    | None => def
    | Some d => if (d <=? 0)%Z then def else d
    end.

(** The map of the required variables to their values. *)
Definition required (cfg : Config) : gmap string string :=
  <["SENDER_EMAIL" := SenderEmail cfg]>
    (<["SENDER_PASSWORD" := SenderPassword cfg]>
       (<["ENTRA_CLIENT_ID" := EntraClientID cfg]>
          (<["ENTRA_TENANT_ID" := EntraTenantID cfg]>
             (<["ENTRA_CLIENT_SECRET" := EntraClientSecret cfg]> ∅)))).

Definition requiredNames : list string :=
  ["SENDER_EMAIL"; "SENDER_PASSWORD"; "ENTRA_CLIENT_ID"; "ENTRA_TENANT_ID";
   "ENTRA_CLIENT_SECRET"].

(** [LoadConfig].  [order] is the order in which the [range] over
    [required] visits its five names. *)
Definition LoadConfig `{TL : TimeLib} (order : list string) (env : gmap string string)
  : string + Config :=
  let cfg := {|
    SMTPAddr := getenv env "SMTP_SERVER_ADDR" ":1025";
    SMTPDomain := getenv env "SMTP_SERVER_DOMAIN" "localhost";
    MaxMessageBytes := getenvInt64 env "SMTP_MAX_MESSAGE_BYTES" (10 * 1024 * 1024);
    MaxRecipients := getenvInt env "SMTP_MAX_RECIPIENTS" 50;
    WriteTimeout := getenvDuration env "SMTP_WRITE_TIMEOUT" (10 * Second);
    ReadTimeout := getenvDuration env "SMTP_READ_TIMEOUT" (10 * Second);
    SenderEmail := Getenv env "SENDER_EMAIL";
    SenderPassword := Getenv env "SENDER_PASSWORD";
    EntraClientID := Getenv env "ENTRA_CLIENT_ID";
    EntraTenantID := Getenv env "ENTRA_TENANT_ID";
    EntraClientSecret := Getenv env "ENTRA_CLIENT_SECRET";
    SentryDSN := Getenv env "SENTRY_DSN";
  |} in
  let missing :=
    foldl (λ missing name,
             if bool_decide (required cfg !!! name = "") then missing ++ [name]
             else missing)
          [] order in
  if (0 <? length missing)%nat then
    inl ("missing required environment variable(s): " +:+ Join missing ", ")
  else inr cfg.

End config.

(** The configuration as read from the environment, before the check of
    the required variables. *)
Definition envConfig `{TL : TimeLib} (env : gmap string string) : config.Config := {|
  config.SMTPAddr := config.getenv env "SMTP_SERVER_ADDR" ":1025";
  config.SMTPDomain := config.getenv env "SMTP_SERVER_DOMAIN" "localhost";
  config.MaxMessageBytes :=
    config.getenvInt64 env "SMTP_MAX_MESSAGE_BYTES" (10 * 1024 * 1024);
  config.MaxRecipients := config.getenvInt env "SMTP_MAX_RECIPIENTS" 50;
  config.WriteTimeout := config.getenvDuration env "SMTP_WRITE_TIMEOUT" (10 * Second);
  config.ReadTimeout := config.getenvDuration env "SMTP_READ_TIMEOUT" (10 * Second);
  config.SenderEmail := Getenv env "SENDER_EMAIL";
  config.SenderPassword := Getenv env "SENDER_PASSWORD";
  config.EntraClientID := Getenv env "ENTRA_CLIENT_ID";
  config.EntraTenantID := Getenv env "ENTRA_TENANT_ID";
  config.EntraClientSecret := Getenv env "ENTRA_CLIENT_SECRET";
  config.SentryDSN := Getenv env "SENTRY_DSN";
|}.

(** The part of the configuration a session is given. *)
Definition sessionConfig (c : config.Config) : Config :=
  {| SenderEmail := config.SenderEmail c; SenderPassword := config.SenderPassword c |}.

(** A duration parser for the examples: whole seconds, written with the
    unit [s]. *)
Definition secondsOnly : TimeLib := {|
  ParseDuration := λ s,
    match SimpleMail.lastChar s with
    | Some "s"%char =>
        match strconv.ParseUint (SimpleMail.dropLast s) 32 with
        | Some n => Some (n * Second)%Z
        | None => None
        end
    | _ => None
    end;
|}.

Definition testEnv : gmap string string :=
  <["SENDER_EMAIL" := "sender@example.com"]>
    (<["SENDER_PASSWORD" := "password"]>
       (<["ENTRA_CLIENT_ID" := "client"]>
          (<["ENTRA_TENANT_ID" := "tenant"]>
             (<["ENTRA_CLIENT_SECRET" := "secret"]>
                (<["SMTP_MAX_RECIPIENTS" := "9223372036854775808"]>
                   (<["SMTP_READ_TIMEOUT" := "5s"]> ∅)))))).

(** A dialogue that never presents the right password. *)
Definition intruderDialogue : list Command :=
  [CAuth "" "sender@example.com" "guess";
   CMail "sender@example.com";
   CRcpt "recipient1@example.com";
   CData (bytesReader testMessage)].

(** A handler with a token cached until the hour 4600. *)
Definition cachedHandler : GraphMailHandler := {| token := "cached"; tokenExp := 4600 |}.

(** The reply of the relay API to a message it takes. *)
Definition accepted : Response :=
  {| StatusCode := 202; Status := "202 Accepted"; RespBody := bytesReader "" |}.
(** * Properties *)

(** ** Strings *)

Lemma append_cons (c : ascii) (s t : string) : String c s +:+ t = String c (s +:+ t).
Proof. reflexivity. Qed.

Lemma append_assoc (s1 s2 s3 : string) : (s1 +:+ s2) +:+ s3 = s1 +:+ (s2 +:+ s3).
Proof. induction s1 as [|c s1 IH]; [done|]. by rewrite !append_cons, IH. Qed.

Lemma length_append (s1 s2 : string) :
  String.length (s1 +:+ s2) = (String.length s1 + String.length s2)%nat.
Proof. induction s1 as [|c s1 IH]; [done|]. rewrite append_cons. simpl. by rewrite IH. Qed.

(** ** Authentication *)

Lemma byte_val_inj a b : byte_val a = byte_val b → a = b.
Proof.
  unfold byte_val. intros E. apply N2Z.inj in E.
  rewrite <- (ascii_N_embedding a), <- (ascii_N_embedding b). by rewrite E.
Qed.

Lemma byte_val_range a : (0 ≤ byte_val a < 256)%Z.
Proof. unfold byte_val. pose proof (N_ascii_bounded a). lia. Qed.

Lemma byte_shiftr a : (0 ≤ a)%Z → (a < 256)%Z ↔ Z.shiftr a 8 = 0%Z.
Proof.
  intros Ha. rewrite Z.shiftr_div_pow2 by lia. change (2 ^ 8)%Z with 256%Z. split.
  - intros Hlt. apply Z.div_small. lia.
  - intros Hd. apply Z.div_small_iff in Hd; lia.
Qed.

(** Or and xor of bytes are bytes. *)
Lemma byte_lor_lxor v a b :
  (0 ≤ v < 256)%Z → (0 ≤ a < 256)%Z → (0 ≤ b < 256)%Z →
  (0 ≤ Z.lor v (Z.lxor a b) < 256)%Z.
Proof.
  intros Hv Ha Hb.
  assert (0 ≤ Z.lxor a b)%Z as Hx by (apply Z.lxor_nonneg; lia).
  assert (0 ≤ Z.lor v (Z.lxor a b))%Z as Ho by (apply Z.lor_nonneg; lia).
  split; [done|]. apply byte_shiftr; [done|].
  rewrite Z.shiftr_lor, Z.shiftr_lxor.
  rewrite (proj1 (byte_shiftr v ltac:(lia))) by lia.
  rewrite (proj1 (byte_shiftr a ltac:(lia))) by lia.
  rewrite (proj1 (byte_shiftr b ltac:(lia))) by lia.
  reflexivity.
Qed.

Lemma xor_acc_range x : ∀ y v, (0 ≤ v < 256)%Z → (0 ≤ xor_acc v x y < 256)%Z.
Proof.
  induction x as [|a x IH]; intros [|b y] v Hv; simpl; try done.
  apply IH. apply byte_lor_lxor; auto using byte_val_range.
Qed.

Lemma xor_acc_zero x : ∀ y v,
  String.length x = String.length y →
  xor_acc v x y = 0%Z ↔ v = 0%Z ∧ x = y.
Proof.
  induction x as [|a x IH]; intros [|b y] v Hlen; simpl in *; try discriminate.
  - split; [auto|]. by intros [-> _].
  - rewrite IH by congruence.
    rewrite Z.lor_eq_0_iff, Z.lxor_eq_0_iff. split.
    + intros [[-> E] ->]. by rewrite (byte_val_inj _ _ E).
    + intros [-> [= -> ->]]. done.
Qed.

(** The bit trick answers 1 on the zero byte and 0 on every other. *)
Lemma ConstantTimeByteEq_zero v :
  (0 ≤ v < 256)%Z → ConstantTimeByteEq v 0 = 1%Z ↔ v = 0%Z.
Proof.
  intros Hv. unfold ConstantTimeByteEq. rewrite Z.lxor_0_r.
  rewrite Z.shiftr_div_pow2 by lia.
  destruct (decide (v = 0%Z)) as [->|Hne].
  - split; [done|]. intros _. reflexivity.
  - rewrite Z.mod_small by lia. rewrite Z.div_small by lia. split; [done|lia].
Qed.

(** The constant-time comparison answers 1 exactly on equal byte strings. *)
Lemma ConstantTimeCompare_eq x y : ConstantTimeCompare x y = 1%Z ↔ x = y.
Proof.
  unfold ConstantTimeCompare.
  destruct (String.length x =? String.length y)%nat eqn:E; simpl.
  - apply Nat.eqb_eq in E.
    rewrite ConstantTimeByteEq_zero by (apply xor_acc_range; lia).
    rewrite xor_acc_zero by done. split; [by intros [_ ?]|done].
  - apply Nat.eqb_neq in E. split; [done|]. intros ->. done.
Qed.

Lemma Auth_cases cfg mech s i u p :
  (u = SenderEmail cfg ∧ p = SenderPassword cfg ∧
   Auth cfg mech s i u p =
     (None, {| auth := true; sender := sender s; recipients := recipients s |}))
  ∨ (¬ (u = SenderEmail cfg ∧ p = SenderPassword cfg) ∧
     Auth cfg mech s i u p = (Some (EText "invalid username or password"), s)).
Proof.
  unfold Auth.
  destruct (Z.eqb_spec (ConstantTimeCompare u (SenderEmail cfg)) 1) as [Hu|Hu];
    destruct (Z.eqb_spec (ConstantTimeCompare p (SenderPassword cfg)) 1) as [Hp|Hp];
    simpl; rewrite ?ConstantTimeCompare_eq in *; [left|right..]; by intuition.
Qed.

(** C9.  [Auth] succeeds, and sets [auth], exactly when the username is
    the configured address and the password the configured secret; on any
    mismatch it fails with an authentication error and leaves the session
    as it was, so a session that was not authenticated remains
    unauthenticated. *)
Theorem Auth_correct (cfg : Config) (mech : string) (s : Session) (i u p : string) :
  ((Auth cfg mech s i u p).1 = None ∧ auth (Auth cfg mech s i u p).2 = true
   ↔ u = SenderEmail cfg ∧ p = SenderPassword cfg)
  ∧ (¬ (u = SenderEmail cfg ∧ p = SenderPassword cfg) →
     ∃ e, Auth cfg mech s i u p = (Some e, s)
          ∧ classify e = Some AuthenticationError)
  ∧ (auth s = false → ¬ (u = SenderEmail cfg ∧ p = SenderPassword cfg) →
     auth (Auth cfg mech s i u p).2 = false).
Proof.
  destruct (Auth_cases cfg mech s i u p) as [(Hu & Hp & ->)|[Hne ->]]; simpl.
  - split_and!; [done | by intros [] | by intros _ []].
  - split_and!.
    + split; [intros [? _]; done | done].
    + intros _. eexists. split; [done|]. reflexivity.
    + done.
Qed.

Lemma Auth_correct_witness :
  (∃ e, Auth testConfig "PLAIN" NewSession "" "sender@example.com" "wrong"
        = (Some e, NewSession)
        ∧ classify e = Some AuthenticationError)
  ∧ auth (Auth testConfig "PLAIN" NewSession "" "sender@example.com" "wrong").2
    = false.
Proof.
  pose proof (Auth_correct testConfig "PLAIN" NewSession ""
                "sender@example.com" "wrong") as (_ & Hfail & Hstay).
  split; [apply Hfail|apply Hstay; [reflexivity|]];
    intros [_ E]; vm_compute in E; discriminate E.
Defined.

(** The scenario of the session test: the configured credentials
    authenticate a new session. *)
Example Auth_scenario : auth authedSession = true.
Proof. vm_compute. reflexivity. Qed.

(** ** Command sequence *)

Section Sequence.
Context `{NM : NetMail} {H : Type} `{HH : !Handler H}.

Lemma Mail_cases s from :
  (∃ e, Mail s from = (Some e, s)) ∨
  (∃ addr, auth s = true ∧ sender s = None ∧ recipients s = []
           ∧ ParseAddress from = Some addr
           ∧ Mail s from = (None, {| auth := auth s; sender := Some addr;
                                     recipients := recipients s |})).
Proof.
  unfold Mail. destruct (auth s); simpl; [|eauto].
  destruct (sender s) as [a|] eqn:Hs; simpl; [eauto|].
  destruct (recipients s) as [|r rs] eqn:Hr; simpl; [|eauto].
  destruct (ParseAddress from) as [addr|] eqn:Hp; [|eauto].
  right. by exists addr.
Qed.

Lemma Rcpt_cases s to :
  (∃ e, Rcpt s to = (Some e, s)) ∨
  (∃ addr, auth s = true ∧ is_Some (sender s)
           ∧ ParseAddress to = Some addr
           ∧ Rcpt s to = (None, {| auth := auth s; sender := sender s;
                                   recipients := recipients s ++ [addr] |})).
Proof.
  unfold Rcpt. destruct (auth s); simpl; [|eauto].
  destruct (sender s) as [a|] eqn:Hs; simpl; [|eauto].
  destruct (ParseAddress to) as [addr|] eqn:Hp; [|eauto].
  right. exists addr. eauto.
Qed.

(** [Data] never writes to the session. *)
Lemma Data_session s hd r : (Data s hd r).1.2 = s.
Proof.
  unfold Data. destruct (auth s); simpl; [|done].
  destruct (sender s); [|done].
  destruct (length (recipients s) =? 0)%nat; [done|].
  unfold ReadAll. destruct (rdErr r) as [e|]; [done|].
  destruct (Data_parse _ _ _); [|done].
  destruct (message _ _) as [[e|] hd']; done.
Qed.

Lemma exec_sender_recipients cfg c st :
  (recipients st.1 ≠ [] → is_Some (sender st.1)) →
  recipients (exec cfg c st).2.1 ≠ [] → is_Some (sender (exec cfg c st).2.1).
Proof.
  destruct st as [s hd]. simpl. intros Hinv.
  destruct c as [i u p|from|to|r| |]; simpl.
  - destruct (Auth_cases cfg "PLAIN" s i u p) as [(_ & _ & ->)|[_ ->]]; done.
  - destruct (Mail_cases s from) as [[e ->]|(addr & _ & _ & _ & _ & ->)]; simpl; eauto.
  - destruct (Rcpt_cases s to) as [[e ->]|(addr & _ & Hs & _ & ->)]; simpl; eauto.
  - pose proof (Data_session s hd r) as Hd.
    destruct (Data s hd r) as [[e s'] hd']. simpl in *. by subst.
  - done.
  - done.
Qed.

Lemma exec_sender_stable cfg c st a :
  sender st.1 = Some a → c ≠ CReset → sender (exec cfg c st).2.1 = Some a.
Proof.
  destruct st as [s hd]. simpl. intros Hs Hc.
  destruct c as [i u p|from|to|r| |]; simpl.
  - destruct (Auth_cases cfg "PLAIN" s i u p) as [(_ & _ & ->)|[_ ->]]; done.
  - destruct (Mail_cases s from) as [[e ->]|(addr & _ & Hn & _)]; [done|congruence].
  - destruct (Rcpt_cases s to) as [[e ->]|(addr & _ & _ & _ & ->)]; done.
  - pose proof (Data_session s hd r) as Hd.
    destruct (Data s hd r) as [[e s'] hd']. simpl in *. by subst.
  - done.
  - done.
Qed.

(** Whatever the dialogue, its end state is one a connection reaches. *)
Lemma reachable_run cfg cs hd : reachable cfg (run cfg cs (NewSession, hd)).
Proof.
  unfold run. induction cs as [|c cs IH] using rev_ind; simpl.
  - constructor.
  - rewrite foldl_app. simpl. by constructor.
Qed.

(** C6.  On an authenticated session [Mail] is refused as out of sequence
    when a sender is set or a recipient was added, and [Rcpt] when no sender
    is set.  Hence, in every state a connection reaches, recipients are
    there only with a sender, and a sender once set stays the same until
    [Reset]: it is set at most once in a transaction. *)
Theorem Mail_Rcpt_sequence (cfg : Config) :
  (∀ s from, auth s = true → is_Some (sender s) ∨ recipients s ≠ [] →
     ∃ e, Mail s from = (Some e, s) ∧ classify e = Some SequenceError)
  ∧ (∀ s to, auth s = true → sender s = None →
     ∃ e, Rcpt s to = (Some e, s) ∧ classify e = Some SequenceError)
  ∧ (∀ st, reachable cfg st → recipients st.1 ≠ [] → is_Some (sender st.1))
  ∧ (∀ st c a, reachable cfg st → sender st.1 = Some a → c ≠ CReset →
     sender (exec cfg c st).2.1 = Some a)
  ∧ (∀ st from st', reachable cfg st → exec cfg (CMail from) st = (None, st') →
     sender st.1 = None ∧ recipients st.1 = [] ∧ is_Some (sender st'.1)).
Proof.
  split_and!.
  - intros s from Ha Hs. unfold Mail. rewrite Ha. simpl.
    case_bool_decide as Hd; [eexists; split; reflexivity|].
    destruct Hs as [[a Hs]|Hr]; [congruence|].
    destruct (recipients s); [done|]. simpl. eexists; split; reflexivity.
  - intros s to Ha Hs. unfold Rcpt. rewrite Ha, Hs. simpl.
    eexists; split; reflexivity.
  - intros st Hreach. induction Hreach as [hd|st c _ IH]; [done|].
    by apply exec_sender_recipients.
  - intros st c a _. apply exec_sender_stable.
  - intros [s hd] from st' _. simpl.
    destruct (Mail_cases s from) as [[e ->]|(addr & _ & Hs & Hr & _ & ->)]; [done|].
    intros [= <-]. simpl. eauto.
Qed.

(** C10.  Whenever [Mail], [Rcpt] or [Data] returns an error, the session
    (the [auth] flag, the sender, the recipients) is what it was before the
    call. *)
Theorem error_leaves_session (s : Session) :
  (∀ from e s', Mail s from = (Some e, s') → s' = s)
  ∧ (∀ to e s', Rcpt s to = (Some e, s') → s' = s)
  ∧ (∀ hd r e s' hd', Data s hd r = (Some e, s', hd') → s' = s).
Proof.
  split_and!.
  - intros from e s'.
    destruct (Mail_cases s from) as [[e' ->]|(addr & _ & _ & _ & _ & ->)]; congruence.
  - intros to e s'.
    destruct (Rcpt_cases s to) as [[e' ->]|(addr & _ & _ & _ & ->)]; congruence.
  - intros hd r e s' hd' E. pose proof (Data_session s hd r) as Hd.
    rewrite E in Hd. done.
Qed.

(** What a successful [Data] went through. *)
Lemma Data_success s hd r s' hd' :
  Data s hd r = (None, s', hd') →
  auth s = true ∧ is_Some (sender s) ∧ recipients s ≠ [].
Proof.
  unfold Data. destruct (auth s); simpl; [|done].
  destruct (sender s); [|done].
  destruct (recipients s); simpl; [done|]. eauto.
Qed.

(** C1, as amended.  After a successful [Data] the session is authenticated
    and still holds the sender and the recipients of the transaction; it is
    [Reset] that clears them, leaving [auth] alone. *)
Theorem Data_success_session (s : Session) (hd : H) (r : Reader) (s' : Session) (hd' : H) :
  Data s hd r = (None, s', hd') →
  s' = s ∧ auth s' = true ∧ is_Some (sender s') ∧ recipients s' ≠ []
  ∧ Reset s' = {| auth := true; sender := None; recipients := [] |}.
Proof.
  intros E. pose proof (Data_session s hd r) as Hd. rewrite E in Hd. simpl in Hd.
  subst s'. destruct (Data_success _ _ _ _ _ E) as (Ha & Hs & Hr).
  split_and!; try done. unfold Reset. by rewrite Ha.
Qed.

End Sequence.

Lemma Mail_Rcpt_sequence_witness :
  ∃ e, Mail (NM := SimpleMail.netMail) openSession "other@example.com"
       = (Some e, openSession)
       ∧ classify e = Some SequenceError.
Proof.
  apply (proj1 (Mail_Rcpt_sequence (NM := SimpleMail.netMail) (H := mockHandler)
                  testConfig)).
  - reflexivity.
  - left. vm_compute. eauto.
Defined.

Lemma error_leaves_session_witness :
  (Data (NM := SimpleMail.netMail) openSession failingHandler
        (bytesReader testMessage)).1.1
  = Some (newSMTPError 554 (5, 3, 0)%Z "sendRawMimeMail: http.Do: timeout")
  ∧ (Data (NM := SimpleMail.netMail) openSession failingHandler
          (bytesReader testMessage)).1.2 = openSession.
Proof.
  split; [vm_compute; reflexivity|].
  apply (proj2 (proj2 (error_leaves_session (NM := SimpleMail.netMail)
                         (H := mockHandler) openSession))
           failingHandler (bytesReader testMessage)
           (newSMTPError 554 (5, 3, 0)%Z "sendRawMimeMail: http.Do: timeout")
           _
           (Data (NM := SimpleMail.netMail) openSession failingHandler
                 (bytesReader testMessage)).2).
  vm_compute. reflexivity.
Defined.

Lemma Data_success_session_witness :
  let r := Data (NM := SimpleMail.netMail) openSession testHandler
             (bytesReader testMessage) in
  r.1.2 = openSession ∧ auth r.1.2 = true ∧ is_Some (sender r.1.2)
  ∧ recipients r.1.2 ≠ []
  ∧ Reset r.1.2 = {| auth := true; sender := None; recipients := [] |}.
Proof.
  intros r.
  apply (Data_success_session (NM := SimpleMail.netMail) openSession testHandler
           (bytesReader testMessage) r.1.2 r.2).
  vm_compute. reflexivity.
Defined.

(** C1, as worded, fails on the dialogue of the session test: [Data]
    succeeds and the sender and both recipients are still in the session. *)
Lemma Data_success_clears_counterexample :
  ¬ Data_success_clears (NM := SimpleMail.netMail) openSession testHandler
      (bytesReader testMessage).
Proof.
  intros Hc.
  destruct (Hc openSession
              (Data (NM := SimpleMail.netMail) openSession testHandler
                    (bytesReader testMessage)).2) as (Hs & _).
  - vm_compute. reflexivity.
  - vm_compute in Hs. discriminate Hs.
Qed.

(** ** Credential cache *)

Lemma wrap64_id z : int64 z → wrap64 z = z.
Proof.
  unfold int64, wrap64. intros Hz.
  rewrite Z.mod_small by lia. lia.
Qed.

(** When [getCachedToken] asks the token source. *)
Lemma getCachedToken_contacts GetToken now h :
  contacts GetToken now h ≠ [] ↔
  token h = "" ∨ (now > wrap64 (tokenExp h - 60))%Z.
Proof.
  unfold contacts, getCachedToken.
  case_bool_decide as Ht; simpl.
  - destruct (GetToken scope); simpl; naive_solver.
  - destruct (Z.gtb_spec now (wrap64 (tokenExp h - 60))) as [Hgt|Hle]; simpl.
    + destruct (GetToken scope); simpl; split; auto with lia; done.
    + split; [done|]. intros [?|?]; [done|lia].
Qed.

(** C3, as amended.  The cached credential is valid when the token is not
    empty and [now <= expiresAt - 60]; [getCachedToken] asks the token
    source exactly when it is not valid.  A valid credential is returned as
    it is, with no request made and the cache untouched; a successful
    refresh overwrites token and expiry with the source's and returns the
    new token. *)
Theorem getCachedToken_refresh (GetToken : list string → string + AccessToken)
    (now : Z) (h : GraphMailHandler) :
  int64 (tokenExp h - 60) →
  (contacts GetToken now h ≠ [] ↔ token h = "" ∨ ¬ (now ≤ tokenExp h - 60)%Z)
  ∧ (token h ≠ "" ∧ (now ≤ tokenExp h - 60)%Z →
     getCachedToken GetToken now h = ((token h, None), h, []))
  ∧ (∀ tok, (token h = "" ∨ ¬ (now ≤ tokenExp h - 60)%Z) →
     GetToken scope = inr tok →
     getCachedToken GetToken now h =
       ((Token tok, None), {| token := Token tok; tokenExp := ExpiresOn tok |},
        [scope])).
Proof.
  intros Hr. split_and!.
  - rewrite getCachedToken_contacts, (wrap64_id _ Hr). split; intros [?|?]; auto with lia.
  - intros [Ht Hn]. unfold getCachedToken. rewrite (wrap64_id _ Hr).
    rewrite bool_decide_false by done.
    destruct (Z.gtb_spec now (tokenExp h - 60)); [lia|done].
  - intros tok Hs Htok. unfold getCachedToken. rewrite (wrap64_id _ Hr), Htok.
    case_bool_decide as Ht; simpl; [done|].
    destruct (Z.gtb_spec now (tokenExp h - 60)); [done|]. destruct Hs; [done|lia].
Qed.

Lemma getCachedToken_refresh_witness :
  getCachedToken (λ _, inr {| Token := "new"; ExpiresOn := 7200 |}) 160
    {| token := "old"; tokenExp := 160 |}
  = (("new", None), {| token := "new"; tokenExp := 7200 |}, [scope]).
Proof.
  apply (proj2 (proj2 (getCachedToken_refresh
                         (λ _, inr {| Token := "new"; ExpiresOn := 7200 |}) 160
                         {| token := "old"; tokenExp := 160 |}
                         ltac:(unfold int64; simpl; lia)))
           {| Token := "new"; ExpiresOn := 7200 |}).
  - right. simpl. lia.
  - reflexivity.
Defined.

(** C3, as worded, fails at the boundary: with a token cached and
    [now = expiresAt - 60] the credential is not valid in the claim's
    sense ([now < expiresAt - 60] is false), yet no request is made. *)
Lemma getCachedToken_boundary_counterexample :
  ¬ getCachedToken_refreshes_unless_before
      (λ _, inl "unreachable") 100 {| token := "cached"; tokenExp := 160 |}.
Proof.
  unfold getCachedToken_refreshes_unless_before. intros [_ Hc].
  assert (Hn : contacts (λ _, inl "unreachable") 100
                 {| token := "cached"; tokenExp := 160 |} ≠ []).
  { apply Hc. right. simpl. lia. }
  vm_compute in Hn. by apply Hn.
Qed.

(** C8.  When the token source fails, [getCachedToken] returns its error
    (wrapped) and leaves token and expiry as they were; so the next call,
    at that time or later, finds the same need to refresh and asks the
    source again. *)
Theorem getCachedToken_failure (GetToken : list string → string + AccessToken)
    (now : Z) (h : GraphMailHandler) (err : string) :
  GetToken scope = inl err →
  contacts GetToken now h ≠ [] →
  getCachedToken GetToken now h = (("", Some (Errorf_w "GetToken" err)), h, [scope])
  ∧ ∀ GetToken' now', (now ≤ now')%Z →
      contacts GetToken' now' (getCachedToken GetToken now h).1.2 = [scope].
Proof.
  intros Herr Hc. apply getCachedToken_contacts in Hc.
  assert (Hst : ∀ n, (now ≤ n)%Z →
            bool_decide (token h = "") || (n >? wrap64 (tokenExp h - 60))%Z = true).
  { intros n Hn. destruct Hc as [Ht|Hgt].
    - by rewrite bool_decide_true.
    - apply orb_true_iff. right. apply Z.gtb_lt. lia. }
  unfold contacts, getCachedToken.
  rewrite (Hst now) by lia. rewrite Herr. simpl. split; [done|].
  intros G' n' Hn'. rewrite (Hst n' Hn'). by destruct (G' scope).
Qed.

Lemma getCachedToken_failure_witness :
  getCachedToken (λ _, inl "timeout") 200 {| token := "old"; tokenExp := 160 |}
  = (("", Some "GetToken: timeout"), {| token := "old"; tokenExp := 160 |}, [scope])
  ∧ ∀ GetToken' now', (200 ≤ now')%Z →
      contacts GetToken' now'
        (getCachedToken (λ _, inl "timeout") 200
           {| token := "old"; tokenExp := 160 |}).1.2 = [scope].
Proof.
  apply (getCachedToken_failure (λ _, inl "timeout") 200
           {| token := "old"; tokenExp := 160 |} "timeout").
  - reflexivity.
  - vm_compute. discriminate.
Defined.

(** ** Relay client *)

Section Relay.
Context `{W : NetHTTP}.

(** C5, as amended.  [sendRawMimeMail] succeeds exactly when the relay API
    answered, with the accepted status (202); a reply of any other status
    gives an error that carries the status text and the body of the reply,
    all of what was read of it. *)
Theorem sendRawMimeMail_status (accessToken userID mimeMessage : string) :
  (sendRawMimeMail accessToken userID mimeMessage = None ↔
   ∃ req resp,
     NewRequestWithContext "POST"
       ("https://graph.microsoft.com/v1.0/users/" +:+ userID +:+ "/sendMail")
       (EncodeToString mimeMessage) = inr req
     ∧ Do (sendMail_request accessToken req) = inr resp
     ∧ StatusCode resp = StatusAccepted)
  ∧ (∀ req resp,
       NewRequestWithContext "POST"
         ("https://graph.microsoft.com/v1.0/users/" +:+ userID +:+ "/sendMail")
         (EncodeToString mimeMessage) = inr req →
       Do (sendMail_request accessToken req) = inr resp →
       StatusCode resp ≠ StatusAccepted →
       sendRawMimeMail accessToken userID mimeMessage =
         Some ("sendMail failed: " +:+ Status resp +:+
               String "010"%char (rdBytes (RespBody resp)))).
Proof.
  unfold sendRawMimeMail, sendMail_request. split.
  - destruct (NewRequestWithContext _ _ _) as [e|req];
      [split; [done|]; intros (? & ? & ? & _); done|].
    destruct (Do _) as [e|resp] eqn:HDo.
    { split; [done|]. intros (req' & resp' & [= <-] & HDo' & _).
      rewrite HDo in HDo'. done. }
    destruct (Z.eqb_spec (StatusCode resp) StatusAccepted) as [Hs|Hs]; simpl.
    + split; [|done]. intros _. exists req, resp. done.
    + split; [done|]. intros (req' & resp' & [= <-] & HDo' & Hs').
      rewrite HDo in HDo'. congruence.
  - intros req resp -> -> Hs.
    destruct (Z.eqb_spec (StatusCode resp) StatusAccepted); [done|]. done.
Qed.

End Relay.

Lemma sendRawMimeMail_status_witness :
  sendRawMimeMail (W := httpReplying (inr (refusal 3))) "token"
    "sender@example.com" "mime"
  = Some ("sendMail failed: 500 Internal Server Error" +:+ String "010"%char "xxx").
Proof.
  apply (proj2 (sendRawMimeMail_status (W := httpReplying (inr (refusal 3)))
                  "token" "sender@example.com" "mime")
           {| Method := "POST";
              URL := "https://graph.microsoft.com/v1.0/users/sender@example.com/sendMail";
              ReqHeader := ∅; ReqBody := "mime" |}
           (refusal 3)).
  - reflexivity.
  - reflexivity.
  - vm_compute. discriminate.
Defined.

Lemma repeatChar_length c n : String.length (repeatChar c n) = n.
Proof. induction n; simpl; congruence. Qed.

(** C5, as worded, fails on the read of the body: whatever the bound, a
    refusal with a longer body comes back whole in the error. *)
Lemma send_error_unbounded_counterexample : ¬ ∃ N, send_error_bounded N.
Proof.
  intros [N Hb].
  specialize (Hb (refusal (S N)) "token" "sender@example.com" "mime" _ eq_refl).
  cbn [refusal Status RespBody bytesReader rdBytes] in Hb.
  rewrite !length_append in Hb. cbn [String.length] in Hb.
  rewrite repeatChar_length in Hb. simpl in Hb. lia.
Qed.

(** ** Envelope reconciliation *)

Section Reconcile.
Context `{NM : NetMail}.

Lemma addAddrs_elem_of (addrs : list Address) : ∀ (set : gset string) (x : string),
  x ∈ addAddrs set addrs ↔ x ∈ set ∨ ∃ a, a ∈ addrs ∧ Addr a = x.
Proof.
  unfold addAddrs. induction addrs as [|a addrs IH]; intros set x; simpl.
  - split; [auto|]. intros [?|(a & Ha & _)]; [done|]. by apply elem_of_nil in Ha.
  - rewrite IH, elem_of_union, elem_of_singleton. split.
    + intros [[->|?]|(b & Hb & <-)]; [right; exists a|auto|right; exists b];
        split; auto; constructor; done.
    + intros [?|(b & Hb & <-)]; [auto|].
      apply elem_of_cons in Hb as [->|Hb]; [auto|]. right. by exists b.
Qed.

(** The addresses collected are those the three headers list. *)
Lemma recipientSet_elem_of (h : gmap string (list string)) (x : string) :
  x ∈ recipientSet h ↔
  lists_address h "To" x ∨ lists_address h "Cc" x ∨ lists_address h "Bcc" x.
Proof.
  assert (Hstep : ∀ (acc : gset string) key,
    x ∈ match AddressList h key with
        | Some addrs => addAddrs acc addrs
        | None => acc
        end ↔ x ∈ acc ∨ lists_address h key x).
  { intros acc key. unfold lists_address.
    destruct (AddressList h key) as [addrs|].
    - rewrite addAddrs_elem_of. split.
      + intros [?|(a & Ha & Hx)]; [auto|]. right. by exists addrs, a.
      + intros [?|(l & a & [= <-] & Ha & Hx)]; [auto|]. right. by exists a.
    - split; [auto|]. intros [?|(l & a & ? & _)]; done. }
  unfold recipientSet. simpl. rewrite !Hstep.
  split; [intros [[[Hx|?]|?]|?]; auto; by apply not_elem_of_empty in Hx|].
  intros [?|[?|?]]; auto.
Qed.

(** The loop over the recipients is a filter: envelope order, duplicates
    kept. *)
Lemma missingRecipients_filter (set : gset string) (rcpts : list Address) :
  missingRecipients set rcpts = AddressString <$> filter (λ r, Addr r ∉ set) rcpts.
Proof.
  induction rcpts as [|r rcpts IH]; [done|]. simpl.
  rewrite filter_cons. destruct (decide (Addr r ∈ set)) as [Hin|Hin].
  - rewrite decide_False by auto. done.
  - rewrite decide_True by done. simpl. by rewrite IH.
Qed.

Lemma Data_bcc_Bcc (h : gmap string (list string)) (rcpts : list Address) :
  let missing := missingRecipients (recipientSet h) rcpts in
  (missing = [] → Data_bcc h rcpts = h)
  ∧ (missing ≠ [] →
     Data_bcc h rcpts =
       <["Bcc" := [(if decide (Get h "Bcc" = "") then ""
                    else Get h "Bcc" +:+ ", ") +:+ Join missing ", "]]> h).
Proof.
  intros missing. unfold Data_bcc. fold missing.
  destruct missing as [|m ms]; simpl; [done|].
  split; [done|]. intros _.
  destruct (decide (Get h "Bcc" = "")) as [He|Hne].
  - rewrite decide_False by auto. done.
  - rewrite decide_True by done. by rewrite append_assoc.
Qed.

Lemma Data_bcc_other (h : gmap string (list string)) (rcpts : list Address) (k : string) :
  k ≠ "Bcc" → Data_bcc h rcpts !! k = h !! k.
Proof.
  intros Hk. destruct (Data_bcc_Bcc h rcpts) as [Hnil Hcons].
  destruct (missingRecipients (recipientSet h) rcpts) as [|m ms] eqn:Hm.
  - by rewrite Hnil.
  - rewrite Hcons by done. by rewrite lookup_insert_ne.
Qed.

Lemma existsb_lists (l : list Address) (x : string) :
  existsb (λ addr, bool_decide (Addr addr = x)) l = true ↔ ∃ a, a ∈ l ∧ Addr a = x.
Proof.
  rewrite existsb_exists. split; intros (a & Ha & Hx); exists a.
  - apply bool_decide_eq_true in Hx. by rewrite list_elem_of_In.
  - rewrite bool_decide_eq_true. by rewrite <- list_elem_of_In.
Qed.

Lemma Data_from_cases (h : gmap string (list string)) (a : Address) :
  (lists_address h "From" (Addr a) ∧ Data_from h (Some a) = h)
  ∨ (¬ lists_address h "From" (Addr a)
     ∧ Data_from h (Some a) = <["From" := [AddressString a]]> h).
Proof.
  unfold Data_from, lists_address.
  destruct (AddressList h "From") as [l|].
  - destruct (existsb _ l) eqn:He; simpl.
    + left. split; [|done]. apply existsb_lists in He as (x & Hx & Hax). by exists l, x.
    + right. split; [|done]. intros (l' & x & [= <-] & Hx & Hax).
      assert (existsb (λ addr, bool_decide (Addr addr = Addr a)) l = true) as Ht
        by (apply existsb_lists; by exists x).
      congruence.
  - right. split; [|done]. intros (l' & x & ? & _). done.
Qed.

Lemma AddressList_lookup (h h' : gmap string (list string)) (key : string) :
  h' !! key = h !! key → AddressList h' key = AddressList h key.
Proof. unfold AddressList, Get. by intros ->. Qed.

(** C2, as amended.  The recipients missing from the headers are the
    envelope recipients, in envelope order and with duplicates, whose
    address none of To, Cc and Bcc lists.  If there is none, Bcc is left as
    it was.  Otherwise Bcc becomes one value: the first value it had (if
    not empty), then the missing recipients, all separated by commas.
    Every header other than From and Bcc, and the body, are unchanged. *)
Theorem Data_reconcile_Bcc (msg : Message) (s : Session) :
  let h := Header msg in
  let h' := Header (Data_reconcile msg s) in
  let missing := AddressString <$> filter (λ r, Addr r ∉ recipientSet h) (recipients s) in
  (∀ x, x ∈ recipientSet h ↔
        lists_address h "To" x ∨ lists_address h "Cc" x ∨ lists_address h "Bcc" x)
  ∧ (missing = [] → h' !! "Bcc" = h !! "Bcc")
  ∧ (missing ≠ [] →
     h' !! "Bcc" = Some [(if decide (Get h "Bcc" = "") then ""
                          else Get h "Bcc" +:+ ", ") +:+ Join missing ", "])
  ∧ (∀ k, k ≠ "From" → k ≠ "Bcc" → h' !! k = h !! k)
  ∧ Body (Data_reconcile msg s) = Body msg.
Proof.
  intros h h' missing. subst h h'. unfold Data_reconcile. simpl.
  assert (Hfrom : ∀ g k, k ≠ "From" → Data_from g (sender s) !! k = g !! k).
  { intros g k Hk. destruct (sender s) as [a|]; [|done].
    destruct (Data_from_cases g a) as [[_ ->]|[_ ->]]; [done|].
    by rewrite lookup_insert_ne. }
  destruct (Data_bcc_Bcc (Header msg) (recipients s)) as [Hnil Hcons].
  rewrite missingRecipients_filter in Hnil, Hcons. fold missing in Hnil, Hcons.
  split_and!.
  - apply recipientSet_elem_of.
  - intros Hm. rewrite Hfrom by done. by rewrite Hnil.
  - intros Hm. rewrite Hfrom by done. rewrite Hcons by done.
    by rewrite lookup_insert_eq.
  - intros k Hk1 Hk2. rewrite Hfrom by done. by apply Data_bcc_other.
  - done.
Qed.

(** C4.  If the From header of the message lists the envelope sender's
    address, reconciliation leaves it as it was; otherwise, also when it is
    absent or does not parse, reconciliation replaces it by the single
    value that is the sender's address string.  Either way the From header
    then lists the sender's address (for the replaced header this is the
    library's part: the address string reads back as a list with that
    address in it). *)
Theorem Data_reconcile_From (msg : Message) (s : Session) (a : Address) :
  sender s = Some a →
  let h := Header msg in
  let h' := Header (Data_reconcile msg s) in
  (lists_address h "From" (Addr a) → h' !! "From" = h !! "From")
  ∧ (¬ lists_address h "From" (Addr a) → h' !! "From" = Some [AddressString a])
  ∧ (AddressString a ≠ "" →
     (∃ l x, ParseAddressList (AddressString a) = Some l ∧ x ∈ l ∧ Addr x = Addr a) →
     lists_address h' "From" (Addr a)).
Proof.
  intros Hs h h'. subst h h'.
  unfold Data_reconcile. simpl. rewrite Hs.
  set (h := Header msg). set (g := Data_bcc h (recipients s)).
  assert (Hg : g !! "From" = h !! "From") by (by apply Data_bcc_other).
  assert (Hlg : lists_address g "From" (Addr a) ↔ lists_address h "From" (Addr a)).
  { unfold lists_address. by rewrite (AddressList_lookup h g "From" Hg). }
  destruct (Data_from_cases g a) as [[Hin ->]|[Hnin ->]].
  - split_and!; [done| |done]. intros Hn. by apply Hlg in Hin.
  - split_and!.
    + intros Hin. by apply Hlg in Hin.
    + intros _. by rewrite lookup_insert_eq.
    + intros Hne (l & x & Hl & Hx & Hax).
      exists l, x. split; [|done]. unfold AddressList, Get.
      rewrite lookup_insert_eq. by rewrite decide_False.
Qed.

End Reconcile.

Lemma Data_reconcile_Bcc_witness :
  Header (Data_reconcile (NM := SimpleMail.netMail)
            {| Header := headerOf twoBccLines; Body := "hi" |} openSession) !! "Bcc"
  = Some ["x@example.com, <recipient2@example.com>"].
Proof.
  refine (eq_trans
            (proj1 (proj2 (proj2 (Data_reconcile_Bcc (NM := SimpleMail.netMail)
               {| Header := headerOf twoBccLines; Body := "hi" |} openSession))) _) _).
  - vm_compute. discriminate.
  - vm_compute. reflexivity.
Defined.

Lemma Data_reconcile_From_witness :
  lists_address (NM := SimpleMail.netMail)
    (Header (Data_reconcile (NM := SimpleMail.netMail)
               {| Header := headerOf [("To", "recipient1@example.com")]; Body := "hi" |}
               openSession))
    "From" "sender@example.com".
Proof.
  apply (proj2 (proj2 (Data_reconcile_From (NM := SimpleMail.netMail)
                  {| Header := headerOf [("To", "recipient1@example.com")]; Body := "hi" |}
                  openSession {| Name := ""; Addr := "sender@example.com" |}
                  eq_refl))).
  - vm_compute. discriminate.
  - exists [{| Name := ""; Addr := "sender@example.com" |}],
           {| Name := ""; Addr := "sender@example.com" |}.
    split_and!; [vm_compute; reflexivity | constructor | reflexivity].
Defined.

(** The reader makes of a message with two Bcc lines a Bcc header of two
    values. *)
Example twoBccLines_read :
  reads_back (NM := SimpleMail.netMail) twoBccLines "hi"
  ∧ headerOf twoBccLines !! "Bcc" = Some ["x@example.com"; "y@example.com"].
Proof. split; vm_compute; reflexivity. Qed.

(** C2, as worded, fails on a message with two Bcc lines: with a recipient
    missing, the second value of Bcc is not to be found in the patched
    header. *)
Lemma Bcc_values_kept_counterexample :
  ¬ Bcc_values_kept (NM := SimpleMail.netMail) (headerOf twoBccLines)
      (recipients openSession).
Proof.
  intros Hc. destruct (Hc "y@example.com") as (v' & Hv' & Hinf).
  - replace (headerOf twoBccLines !!! "Bcc") with ["x@example.com"; "y@example.com"]
      by (vm_compute; reflexivity).
    apply elem_of_cons. right. apply elem_of_cons. by left.
  - replace (Data_bcc (NM := SimpleMail.netMail) (headerOf twoBccLines)
               (recipients openSession) !!! "Bcc")
      with ["x@example.com, <recipient2@example.com>"] in Hv'
      by (vm_compute; reflexivity).
    apply list_elem_of_singleton in Hv'. subst v'.
    vm_compute in Hinf. discriminate Hinf.
Qed.

(** ** The fallback message *)

Section Fallback.
Context `{NM : NetMail} {H : Type} `{HH : !Handler H}.

(** The buffer [Data] writes is the wire form of the four fallback lines
    and the raw bytes. *)
Lemma Data_fallback_wireForm (snd : Address) (rcpts : list Address) (b : string) :
  Data_fallback snd rcpts b = wireForm (fallbackLines snd rcpts) b.
Proof.
  unfold Data_fallback, wireForm, fallbackLines. simpl.
  by rewrite !append_assoc.
Qed.

Lemma headerOf_fallbackLines (snd : Address) (rcpts : list Address) :
  headerOf (fallbackLines snd rcpts) =
  <["Content-Type" := ["text/plain; charset=utf-8"]]>
    (<["Subject" := ["(no subject)"]]>
       (<["To" := [Join (AddressString <$> rcpts) ", "]]>
          (<["From" := [AddressString snd]]> ∅))).
Proof.
  unfold headerOf, fallbackLines. simpl.
  rewrite !lookup_total_insert_ne by done. by rewrite !lookup_total_empty.
Qed.

(** C7.  When the submitted bytes do not parse, the buffer [Data] builds
    is the wire form of a message with From the sender's address string,
    To the recipients' address strings joined by commas in arrival order,
    Subject the placeholder, Content-Type plain text, and the raw bytes as
    body; read back, that is the fallback message, with these four headers
    and no other.  [Data] answers "invalid message format" only if the
    buffer itself does not parse. *)
Theorem Data_fallback_message (s : Session) (hd : H) (r : Reader) (snd : Address) :
  sender s = Some snd →
  ReadMessage (rdBytes r) = None →
  let b := rdBytes r in
  let rcpts := recipients s in
  Data_fallback snd rcpts b = wireForm (fallbackLines snd rcpts) b
  ∧ (reads_back (fallbackLines snd rcpts) b →
     ∃ m, Data_parse snd rcpts b = Some m
          ∧ Header m !! "From" = Some [AddressString snd]
          ∧ Header m !! "To" = Some [Join (AddressString <$> rcpts) ", "]
          ∧ Header m !! "Subject" = Some ["(no subject)"]
          ∧ Header m !! "Content-Type" = Some ["text/plain; charset=utf-8"]
          ∧ (∀ k, k ∉ ["From"; "To"; "Subject"; "Content-Type"] → Header m !! k = None)
          ∧ Body m = b)
  ∧ (reads_back (fallbackLines snd rcpts) b →
     auth s = true → rcpts ≠ [] → rdErr r = None →
     (Data s hd r).2 =
       (message hd (Data_reconcile
                      {| Header := headerOf (fallbackLines snd rcpts); Body := b |} s)).2)
  ∧ (∀ e s' hd', Data s hd r = (Some e, s', hd') →
       classify e = Some MessageFormatError →
       ReadMessage (Data_fallback snd rcpts b) = None).
Proof.
  intros Hs Hnone b rcpts. subst b rcpts. split_and!.
  - apply Data_fallback_wireForm.
  - intros Hrb. unfold reads_back in Hrb. eexists. split.
    + unfold Data_parse. rewrite Hnone, Data_fallback_wireForm. exact Hrb.
    + simpl. rewrite headerOf_fallbackLines. split_and!; try done.
      intros k Hk. rewrite !not_elem_of_cons in Hk.
      destruct Hk as (? & ? & ? & ? & _).
      rewrite !lookup_insert_ne by done. done.
  - intros Hrb Ha Hr He. unfold reads_back in Hrb. unfold Data.
    rewrite Hs, Ha. simpl. destruct (recipients s) as [|r0 rs] eqn:Hrs; [done|].
    simpl. unfold ReadAll. rewrite He. unfold Data_parse.
    rewrite Hnone, Data_fallback_wireForm, Hrb.
    by destruct (message _ _) as [[e|] hd'].
  - intros e s' hd'. unfold Data. rewrite Hs.
    destruct (auth s); simpl; [|by intros [= <- _ _]].
    destruct (length (recipients s) =? 0)%nat; [by intros [= <- _ _]|].
    unfold ReadAll. destruct (rdErr r) as [e'|].
    { intros [= <- _ _]. simpl. by case_decide. }
    unfold Data_parse. rewrite Hnone.
    destruct (ReadMessage (Data_fallback _ _ _)) as [m|]; [|done].
    destruct (message _ _) as [[e'|] hd'']; [|done].
    by intros [= <- _ _].
Qed.

End Fallback.

Lemma Data_fallback_message_witness :
  ∃ m, Data_parse (NM := SimpleMail.netMail)
         {| Name := ""; Addr := "sender@example.com" |} (recipients openSession) "hello"
       = Some m
       ∧ Header m !! "From" = Some ["<sender@example.com>"]
       ∧ Header m !! "To" = Some ["<recipient1@example.com>, <recipient2@example.com>"]
       ∧ Header m !! "Subject" = Some ["(no subject)"]
       ∧ Header m !! "Content-Type" = Some ["text/plain; charset=utf-8"]
       ∧ (∀ k, k ∉ ["From"; "To"; "Subject"; "Content-Type"] → Header m !! k = None)
       ∧ Body m = "hello".
Proof.
  apply (proj1 (proj2 (Data_fallback_message (NM := SimpleMail.netMail)
                         (H := mockHandler) openSession testHandler
                         (bytesReader "hello")
                         {| Name := ""; Addr := "sender@example.com" |}
                         eq_refl eq_refl))).
  vm_compute. reflexivity.
Defined.

(** ** The session tests, run on the model *)

(** [TestSession_SMTP_Like_Success]: the dialogue is accepted, the handler
    is called with the message as sent, and [Reset] clears the envelope. *)
Example session_test_success :
  let r := Data (NM := SimpleMail.netMail) openSession testHandler
             (bytesReader testMessage) in
  r.1.1 = None
  ∧ called r.2 = true
  ∧ (msg r.2 ≫= λ m, AddressList (NM := SimpleMail.netMail) (Header m) "From")
    = Some [{| Name := ""; Addr := "sender@example.com" |}]
  ∧ (msg r.2 ≫= λ m, AddressList (NM := SimpleMail.netMail) (Header m) "To")
    = Some [{| Name := ""; Addr := "recipient1@example.com" |};
            {| Name := ""; Addr := "recipient2@example.com" |}]
  ∧ (msg r.2 ≫= λ m, Header m !! "Subject") = Some ["Test"]
  ∧ (Body <$> msg r.2) = Some ("Hello World" +:+ CRLF)
  ∧ Reset r.1.2 = {| auth := true; sender := None; recipients := [] |}.
Proof. vm_compute. repeat split. Qed.

(** [TestSession_Errors]: every misuse is answered by an error. *)
Example session_test_errors :
  let authed := {| auth := true; sender := None; recipients := [] |} in
  let withSender := (Mail (NM := SimpleMail.netMail) authed "sender@example.com").2 in
  let withRcpt := (Rcpt (NM := SimpleMail.netMail) withSender "recipient@example.com").2 in
  is_Some (Mail (NM := SimpleMail.netMail) NewSession "sender@example.com").1
  ∧ is_Some (Rcpt (NM := SimpleMail.netMail) authed "recipient@example.com").1
  ∧ is_Some (Mail (NM := SimpleMail.netMail) authed "not-an-email").1
  ∧ is_Some (Rcpt (NM := SimpleMail.netMail) withSender "not-an-email").1
  ∧ is_Some (Mail (NM := SimpleMail.netMail) withRcpt "sender2@example.com").1
  ∧ is_Some (Data (NM := SimpleMail.netMail) NewSession testHandler (bytesReader "test")).1.1
  ∧ is_Some (Data (NM := SimpleMail.netMail) authed testHandler (bytesReader "test")).1.1
  ∧ is_Some (Data (NM := SimpleMail.netMail) withSender testHandler (bytesReader "test")).1.1
  ∧ (Data (NM := SimpleMail.netMail) withRcpt testHandler
          (bytesReader "not a mime message")).1.1 = None.
Proof. vm_compute. repeat split; eauto. Qed.

(** The scenario of a recipient that the To header does not name: it is
    put into Bcc, as its address string. *)
Example scenario_missing_recipient :
  let s := (run (NM := SimpleMail.netMail) testConfig
              [CAuth "" "sender@example.com" "password";
               CMail "sender@example.com";
               CRcpt "a@example.com"; CRcpt "b@example.com"]
              (NewSession, testHandler)).1 in
  let r := Data (NM := SimpleMail.netMail) s testHandler
             (bytesReader ("From: sender@example.com" +:+ CRLF +:+
                           "To: a@example.com" +:+ CRLF +:+ CRLF +:+ "hi")) in
  r.1.1 = None ∧ (msg r.2 ≫= λ m, Header m !! "Bcc") = Some ["<b@example.com>"].
Proof. vm_compute. repeat split. Qed.

(** * Further properties of the code *)

(** ** Dialogues *)

Section Dialogues.
Context `{NM : NetMail} {H : Type} `{HH : !Handler H}.

Lemma exec_auth cfg c st :
  auth (exec cfg c st).2.1 = true ↔ auth st.1 = true ∨ authenticates cfg c.
Proof.
  destruct st as [s hd]. destruct c as [i u p|from|to|r| |]; simpl.
  - destruct (Auth_cases cfg "PLAIN" s i u p) as [(Hu & Hp & ->)|[Hne ->]]; simpl.
    + split; auto.
    + split; [auto|]. by intros [?|?].
  - destruct (Mail_cases s from) as [[e ->]|(addr & _ & _ & _ & _ & ->)]; simpl;
      (split; [auto|by intros [?|?]]).
  - destruct (Rcpt_cases s to) as [[e ->]|(addr & _ & _ & _ & ->)]; simpl;
      (split; [auto|by intros [?|?]]).
  - pose proof (Data_session s hd r) as Hd.
    destruct (Data s hd r) as [[e s'] hd']. simpl in *. subst s'.
    split; [auto|by intros [?|?]].
  - split; [auto|by intros [?|?]].
  - split; [auto|by intros [?|?]].
Qed.

Lemma run_cons cfg c cs st : run cfg (c :: cs) st = run cfg cs (exec cfg c st).2.
Proof. reflexivity. Qed.

Lemma run_snoc cfg cs c st : run cfg (cs ++ [c]) st = (exec cfg c (run cfg cs st)).2.
Proof. unfold run. by rewrite foldl_app. Qed.

(** X1.  A session is authenticated exactly when some AUTH of the dialogue
    presented the configured credentials: the flag is set by nothing
    else, and nothing, [Reset] included, takes it back. *)
Theorem auth_iff_credentials (cfg : Config) (cs : list Command) (hd : H) :
  auth (run cfg cs (NewSession, hd)).1 = true ↔ Exists (authenticates cfg) cs.
Proof.
  induction cs as [|c cs IH] using rev_ind.
  - simpl. split; [done|]. intros Hex. by apply Exists_nil in Hex.
  - rewrite run_snoc, exec_auth, IH, Exists_app, Exists_cons, Exists_nil. tauto.
Qed.

(** [Data] leaves the handler alone unless the session is authenticated,
    has a sender and a recipient, and the input was read to its end. *)
Lemma Data_handler_untouched (s : Session) (hd : H) (r : Reader) :
  auth s = false ∨ sender s = None ∨ recipients s = [] ∨ is_Some (rdErr r) →
  (Data s hd r).2 = hd.
Proof.
  intros Hc. unfold Data. destruct (auth s); simpl; [|done].
  destruct (sender s) as [a|]; [|done].
  destruct (recipients s) as [|r0 rs]; simpl; [done|].
  unfold ReadAll. destruct (rdErr r) as [e|]; [done|].
  destruct Hc as [?|[?|[?|[? ?]]]]; done.
Qed.

Lemma exec_handler_unauth cfg c st :
  auth st.1 = false → (exec cfg c st).2.2 = st.2.
Proof.
  destruct st as [s hd]. simpl. intros Ha.
  destruct c as [i u p|from|to|r| |]; simpl; try done.
  - by destruct (Auth _ _ _ _ _ _).
  - by destruct (Mail _ _).
  - by destruct (Rcpt _ _).
  - pose proof (Data_handler_untouched s hd r (or_introl Ha)) as Hd.
    by destruct (Data s hd r) as [[e s'] hd'].
Qed.

(** X2.  Without the configured credentials nothing is relayed: in a dialogue
    none of whose AUTH commands presents them, the handler is never
    invoked, whatever else is sent. *)
Theorem no_relay_without_credentials (cfg : Config) (cs : list Command) (hd : H) :
  ¬ Exists (authenticates cfg) cs →
  (run cfg cs (NewSession, hd)).2 = hd.
Proof.
  intros Hne.
  assert (Hinv : auth (run cfg cs (NewSession, hd)).1 = false
                 ∧ (run cfg cs (NewSession, hd)).2 = hd); [|by destruct Hinv].
  induction cs as [|c cs IH] using rev_ind; [done|].
  rewrite Exists_app, Exists_cons, Exists_nil in Hne.
  destruct IH as [Ha Hh]; [tauto|]. rewrite run_snoc. split.
  - destruct (auth (exec cfg c (run cfg cs (NewSession, hd))).2.1) eqn:He; [|done].
    apply exec_auth in He as [He|He]; [congruence|tauto].
  - by rewrite exec_handler_unauth.
Qed.

(** X3.  Recipients accumulate in the order of the RCPT commands, duplicates
    included: on an open transaction, a run of RCPT commands whose
    addresses all parse appends the parsed addresses one by one. *)
Theorem Rcpt_accumulates (cfg : Config) (tos : list string) (addrs : list Address)
    (s : Session) (hd : H) :
  auth s = true → is_Some (sender s) →
  mapM ParseAddress tos = Some addrs →
  run cfg (CRcpt <$> tos) (s, hd) =
    ({| auth := true; sender := sender s; recipients := recipients s ++ addrs |}, hd).
Proof.
  revert addrs s. induction tos as [|to tos IH]; intros addrs s Ha Hs Hm.
  - simpl in Hm. injection Hm as <-. rewrite app_nil_r. destruct s. simpl in *.
    by subst.
  - simpl in Hm. destruct (ParseAddress to) as [a|] eqn:Hp; [|done]. simpl in Hm.
    destruct (mapM ParseAddress tos) as [l|] eqn:Hl; [|done]. simpl in Hm.
    injection Hm as <-.
    rewrite fmap_cons, run_cons. cbn [exec].
    destruct (Rcpt_cases s to) as [[e He]|(addr & _ & _ & Hp' & He)].
    + unfold Rcpt in He. rewrite Ha in He. destruct Hs as [x Hx].
      rewrite Hx, Hp in He. simpl in He. done.
    + rewrite He. cbn [snd]. rewrite Hp in Hp'. injection Hp' as <-.
      rewrite (IH l); simpl; [|done..]. by rewrite <- app_assoc.
Qed.

(** X4.  After a successful [Data] the transaction stays in the session: a new
    MAIL FROM is refused as out of sequence until [Reset], after which any
    address that parses is accepted as the sender of a new transaction. *)
Theorem next_transaction_needs_Reset (s : Session) (hd : H) (r : Reader)
    (s' : Session) (hd' : H) :
  Data s hd r = (None, s', hd') →
  (∀ from, ∃ e, Mail s' from = (Some e, s') ∧ classify e = Some SequenceError)
  ∧ (∀ from a, ParseAddress from = Some a →
       Mail (Reset s') from =
         (None, {| auth := true; sender := Some a; recipients := [] |})).
Proof.
  intros E. pose proof (Data_session s hd r) as Hd. rewrite E in Hd. simpl in Hd.
  subst s'. destruct (Data_success _ _ _ _ _ E) as (Ha & [x Hs] & Hr). split.
  - intros from. unfold Mail. rewrite Ha, Hs. simpl.
    eexists. split; reflexivity.
  - intros from a Hp. unfold Mail, Reset. simpl. rewrite Ha, Hp. simpl. done.
Qed.

End Dialogues.

(** ** Messages that need no patch *)

Section PassThrough.
Context `{NM : NetMail}.

Lemma missingRecipients_nil (set : gset string) (rcpts : list Address) :
  (∀ r, r ∈ rcpts → Addr r ∈ set) → missingRecipients set rcpts = [].
Proof.
  induction rcpts as [|r rcpts IH]; intros Hall; [done|]. simpl.
  rewrite decide_True by (apply Hall; by left).
  apply IH. intros r' Hr'. apply Hall. by right.
Qed.

(** X6.  A message whose To, Cc and Bcc headers list every envelope recipient
    and whose From header lists the envelope sender is handed to the relay
    as it was parsed: reconciliation changes nothing. *)
Theorem Data_reconcile_unchanged (msg : Message) (s : Session) (a : Address) :
  sender s = Some a →
  (∀ r, r ∈ recipients s → Addr r ∈ recipientSet (Header msg)) →
  lists_address (Header msg) "From" (Addr a) →
  Data_reconcile msg s = msg.
Proof.
  intros Hs Hall Hfrom. unfold Data_reconcile. rewrite Hs.
  destruct (Data_bcc_Bcc (Header msg) (recipients s)) as [Hnil _].
  rewrite Hnil by (by apply missingRecipients_nil).
  destruct (Data_from_cases (Header msg) a) as [[_ ->]|[Hn _]]; [|done].
  by destruct msg.
Qed.

End PassThrough.

Lemma Data_reconcile_unchanged_witness :
  Data_reconcile (NM := SimpleMail.netMail)
    {| Header := headerOf [("From", "sender@example.com");
                           ("To", "recipient1@example.com, recipient2@example.com")];
       Body := "Hello" |} openSession
  = {| Header := headerOf [("From", "sender@example.com");
                           ("To", "recipient1@example.com, recipient2@example.com")];
       Body := "Hello" |}.
Proof.
  apply (Data_reconcile_unchanged (NM := SimpleMail.netMail) _ openSession
           {| Name := ""; Addr := "sender@example.com" |} eq_refl).
  - intros r Hr. apply recipientSet_elem_of. left.
    exists [{| Name := ""; Addr := "recipient1@example.com" |};
            {| Name := ""; Addr := "recipient2@example.com" |}], r.
    split_and!; [vm_compute; reflexivity|exact Hr|reflexivity].
  - exists [{| Name := ""; Addr := "sender@example.com" |}],
           {| Name := ""; Addr := "sender@example.com" |}.
    split_and!; [vm_compute; reflexivity|constructor|reflexivity].
Defined.

(** ** The token cache over several calls *)

(** X7.  A token handed out without error is the one in the cache afterwards,
    and it is either the cached one, not empty and with more than a minute
    to live, or the one the source has just given. *)
Theorem getCachedToken_result (GetToken : list string → string + AccessToken)
    (now : Z) (h h' : GraphMailHandler) (t : string) (calls : list (list string)) :
  int64 (tokenExp h - 60) →
  getCachedToken GetToken now h = ((t, None), h', calls) →
  token h' = t
  ∧ ((calls = [] ∧ h' = h ∧ t ≠ "" ∧ (now ≤ tokenExp h - 60)%Z)
     ∨ (calls = [scope] ∧ ∃ tok, GetToken scope = inr tok ∧ t = Token tok
                                 ∧ tokenExp h' = ExpiresOn tok)).
Proof.
  intros Hr. unfold getCachedToken. rewrite (wrap64_id _ Hr).
  case_bool_decide as Ht; simpl.
  - destruct (GetToken scope) as [e|tok]; [done|]. intros [= <- <- <-].
    split; [done|]. right. split; [done|]. by exists tok.
  - destruct (Z.gtb_spec now (tokenExp h - 60)) as [Hgt|Hle].
    + destruct (GetToken scope) as [e|tok]; [done|]. intros [= <- <- <-].
      split; [done|]. right. split; [done|]. by exists tok.
    + intros [= <- <- <-]. split; [done|]. left. done.
Qed.

Lemma getCachedToken_result_witness :
  token (getCachedToken (λ _, inl "down") 100
           {| token := "cached"; tokenExp := 160 |}).1.2 = "cached".
Proof.
  apply (proj1 (getCachedToken_result (λ _, inl "down") 100
                  {| token := "cached"; tokenExp := 160 |}
                  (getCachedToken (λ _, inl "down") 100
                     {| token := "cached"; tokenExp := 160 |}).1.2
                  "cached" []
                  ltac:(unfold int64; simpl; lia) eq_refl)).
Defined.

(** X8.  After a refresh the source is left alone for as long as the new token
    is not empty and has more than a minute to live, and is asked again on
    the first call after that. *)
Theorem getCachedToken_reuse (GetToken GetToken' : list string → string + AccessToken)
    (now now' : Z) (h : GraphMailHandler) (tok : AccessToken) :
  contacts GetToken now h ≠ [] →
  GetToken scope = inr tok →
  int64 (ExpiresOn tok - 60) →
  let h1 := (getCachedToken GetToken now h).1.2 in
  (Token tok ≠ "" ∧ (now' ≤ ExpiresOn tok - 60)%Z →
     getCachedToken GetToken' now' h1 = ((Token tok, None), h1, []))
  ∧ (Token tok = "" ∨ (now' > ExpiresOn tok - 60)%Z →
     contacts GetToken' now' h1 = [scope]).
Proof.
  intros Hc Htok Hr h1.
  assert (Hh1 : h1 = {| token := Token tok; tokenExp := ExpiresOn tok |}).
  { subst h1. apply getCachedToken_contacts in Hc. unfold getCachedToken.
    assert (bool_decide (token h = "") || (now >? wrap64 (tokenExp h - 60))%Z = true)
      as -> by (destruct Hc; [by rewrite bool_decide_true|
                              apply orb_true_iff; right; apply Z.gtb_lt; lia]).
    by rewrite Htok. }
  rewrite Hh1. split.
  - intros [Hne Hle]. unfold getCachedToken. cbn [token tokenExp].
    rewrite (wrap64_id _ Hr). rewrite bool_decide_false by done.
    destruct (Z.gtb_spec now' (ExpiresOn tok - 60)); [lia|done].
  - intros Hst.
    assert (contacts GetToken' now' {| token := Token tok; tokenExp := ExpiresOn tok |}
            ≠ []) as Hne.
    { apply getCachedToken_contacts. cbn [token tokenExp].
      rewrite (wrap64_id _ Hr). tauto. }
    revert Hne. unfold contacts, getCachedToken.
    destruct (_ || _); [by destruct (GetToken' scope)|done].
Qed.

Lemma getCachedToken_reuse_witness :
  getCachedToken (λ _, inl "down") 4000
    (getCachedToken (λ _, inr {| Token := "granted"; ExpiresOn := 4600 |}) 1000
       NewGraphMailHandler).1.2
  = (("granted", None),
     (getCachedToken (λ _, inr {| Token := "granted"; ExpiresOn := 4600 |}) 1000
        NewGraphMailHandler).1.2, []).
Proof.
  apply (proj1 (getCachedToken_reuse
                  (λ _, inr {| Token := "granted"; ExpiresOn := 4600 |})
                  (λ _, inl "down") 1000 4000 NewGraphMailHandler
                  {| Token := "granted"; ExpiresOn := 4600 |}
                  ltac:(vm_compute; discriminate) eq_refl
                  ltac:(unfold int64; simpl; lia))).
  split; [discriminate|simpl; lia].
Defined.

(** ** Encoding a message for the relay *)

Lemma append_nil_r (s : string) : s +:+ "" = s.
Proof. induction s as [|c s IH]; [done|]. by rewrite append_cons, IH. Qed.

(** The lines of a wire form, without the blank line and the body. *)
Lemma wireForm_lines_app (l1 l2 : list (string * string)) (rest : string) :
  foldr (λ '(k, v) acc, k +:+ ": " +:+ v +:+ CRLF +:+ acc) rest (l1 ++ l2)
  = foldr (λ '(k, v) acc, k +:+ ": " +:+ v +:+ CRLF +:+ acc) "" l1
    +:+ foldr (λ '(k, v) acc, k +:+ ": " +:+ v +:+ CRLF +:+ acc) rest l2.
Proof.
  induction l1 as [|[k v] l1 IH]; simpl; [done|].
  by rewrite IH, !append_assoc.
Qed.

Lemma write_values (k : string) (vs : list string) : ∀ buf,
  foldl (λ buf vv, buf +:+ (k +:+ ": " +:+ vv +:+ CRLF)) buf vs
  = buf +:+ foldr (λ '(k, v) acc, k +:+ ": " +:+ v +:+ CRLF +:+ acc) ""
                  ((λ v, (k, v)) <$> vs).
Proof.
  induction vs as [|v vs IH]; intros buf; simpl.
  - by rewrite append_nil_r.
  - by rewrite IH, !append_assoc.
Qed.

Lemma write_headers (h : gmap string (list string)) (order : list string) : ∀ buf,
  foldl (λ buf k,
           foldl (λ buf vv, buf +:+ (k +:+ ": " +:+ vv +:+ CRLF)) buf (h !!! k))
        buf order
  = buf +:+ foldr (λ '(k, v) acc, k +:+ ": " +:+ v +:+ CRLF +:+ acc) ""
                  (headerLines order h).
Proof.
  unfold headerLines. induction order as [|k order IH]; intros buf; simpl.
  - by rewrite append_nil_r.
  - rewrite IH, write_values, wireForm_lines_app. by rewrite append_assoc.
Qed.

(** What a block of lines groups into, key by key. *)
Lemma group_lookup (lines : list (string * string)) (k : string) :
  ∀ acc : gmap string (list string),
  foldl (λ h '(k, v), <[k := (h !!! k ++ [v])]> h) acc lines !! k
  = match (filter (λ kv, kv.1 = k) lines).*2 with
    | [] => acc !! k
    | vs => Some (acc !!! k ++ vs)
    end.
Proof.
  induction lines as [|[k' v] lines IH]; intros acc; [done|].
  cbn [foldl]. rewrite IH, filter_cons. cbn [fst].
  destruct (decide (k' = k)) as [->|Hne].
  - rewrite fmap_cons. cbn [snd].
    rewrite lookup_insert_eq, lookup_total_insert_eq.
    destruct ((filter (λ kv, kv.1 = k) lines).*2) as [|x l]; [done|].
    f_equal. by rewrite <- app_assoc.
  - by rewrite lookup_insert_ne, lookup_total_insert_ne.
Qed.

Lemma headerLines_cons (h : gmap string (list string)) (k : string)
    (order : list string) :
  headerLines (k :: order) h = ((λ v, (k, v)) <$> h !!! k) ++ headerLines order h.
Proof. reflexivity. Qed.

Lemma filter_key_values (k k' : string) (vs : list string) :
  (filter (λ kv : string * string, kv.1 = k) ((λ v, (k', v)) <$> vs)).*2
  = if decide (k' = k) then vs else [].
Proof.
  induction vs as [|v vs IH]; [by destruct (decide (k' = k))|].
  rewrite fmap_cons, filter_cons. cbn [fst].
  destruct (decide (k' = k)) as [->|Hne]; [|done].
  rewrite fmap_cons. cbn [snd]. by rewrite IH.
Qed.

Lemma headerLines_values (h : gmap string (list string)) (k : string)
    (order : list string) :
  NoDup order →
  (filter (λ kv, kv.1 = k) (headerLines order h)).*2
  = if decide (k ∈ order) then h !!! k else [].
Proof.
  induction order as [|k' order IH]; intros Hnd.
  - rewrite decide_False by apply not_elem_of_nil. done.
  - apply NoDup_cons in Hnd as [Hk' Hnd].
    rewrite headerLines_cons, filter_app, fmap_app, IH, filter_key_values by done.
    destruct (decide (k' = k)) as [->|Hne].
    + rewrite (decide_False (P := k ∈ order)) by done.
      rewrite (decide_True (P := k ∈ k :: order)) by (by left).
      by rewrite app_nil_r.
    + destruct (decide (k ∈ order)) as [Hin|Hin].
      * rewrite (decide_True (P := k ∈ k' :: order)) by (by right). done.
      * rewrite (decide_False (P := k ∈ k' :: order)); [done|].
        intros [?|?]%elem_of_cons; done.
Qed.

Lemma ranges_over_map_to_list (h : gmap string (list string)) :
  ranges_over (map_to_list h).*1 h.
Proof.
  split; [apply NoDup_fst_map_to_list|].
  intros k. rewrite list_elem_of_fmap. split.
  - intros ([k' vs] & -> & Hin). apply elem_of_map_to_list in Hin. by exists vs.
  - intros [vs Hvs]. exists (k, vs). split; [done|]. by apply elem_of_map_to_list.
Qed.

Section Encode.
Context `{NM : NetMail}.

(** X9.  Whatever the order in which the header map is ranged over, the
    encoded message is the wire form of lines that group back into the
    header map: every key that has values, with its values in their order.
    A key without values is not written.  So a message whose keys all have
    a value comes back from a reader of wire forms as it was. *)
Theorem encodeMailMessage_lines (order : list string) (msg : Message) :
  ranges_over order (Header msg) →
  let lines := headerLines order (Header msg) in
  encodeMailMessage order msg = inr (wireForm lines (Body msg))
  ∧ (∀ k, headerOf lines !! k =
          match Header msg !! k with
          | Some (v :: vs) => Some (v :: vs)
          | _ => None
          end)
  ∧ ((∀ k, Header msg !! k ≠ Some []) →
     headerOf lines = Header msg
     ∧ (reads_back lines (Body msg) →
        ReadMessage (wireForm lines (Body msg)) = Some msg)).
Proof.
  intros [Hnd Hdom] lines.
  assert (Hk : ∀ k, headerOf lines !! k =
                    match Header msg !! k with
                    | Some (v :: vs) => Some (v :: vs)
                    | _ => None
                    end).
  { intros k. unfold headerOf, lines. rewrite group_lookup, headerLines_values by done.
    rewrite lookup_empty, lookup_total_empty. simpl.
    destruct (Header msg !! k) as [vs|] eqn:Hl.
    - rewrite decide_True by (apply Hdom; eauto).
      rewrite (lookup_total_correct _ _ _ Hl). by destruct vs.
    - rewrite decide_False; [done|]. rewrite Hdom, Hl. by intros [? ?]. }
  split_and!.
  - unfold encodeMailMessage, wireForm. rewrite write_headers. simpl.
    fold lines. f_equal.
    rewrite <- (app_nil_r lines) at 2. rewrite wireForm_lines_app. simpl.
    by rewrite append_assoc.
  - exact Hk.
  - intros Hne.
    assert (Heq : headerOf lines = Header msg).
    { apply map_eq. intros k. rewrite Hk. specialize (Hne k).
      destruct (Header msg !! k) as [[|v vs]|]; done. }
    split; [done|]. unfold reads_back. rewrite Heq. intros ->. by destruct msg.
Qed.

End Encode.

Lemma encodeMailMessage_lines_witness :
  encodeMailMessage (map_to_list (headerOf twoBccLines)).*1
    {| Header := headerOf twoBccLines; Body := "hi" |}
  = inr (wireForm (headerLines (map_to_list (headerOf twoBccLines)).*1
                     (headerOf twoBccLines)) "hi").
Proof.
  exact (proj1 (encodeMailMessage_lines (NM := SimpleMail.netMail)
                  (map_to_list (headerOf twoBccLines)).*1
                  {| Header := headerOf twoBccLines; Body := "hi" |}
                  (ranges_over_map_to_list _))).
Defined.

(** ** Relaying a message *)

(** A reply of a status other than 202, whatever became of the read of
    its body. *)
Lemma sendRawMimeMail_refused `{W : NetHTTP} (accessToken userID mimeMessage : string)
    (req : Request) (resp : Response) :
  NewRequestWithContext "POST"
    ("https://graph.microsoft.com/v1.0/users/" +:+ userID +:+ "/sendMail")
    (EncodeToString mimeMessage) = inr req →
  Do (sendMail_request accessToken req) = inr resp →
  StatusCode resp ≠ StatusAccepted →
  sendRawMimeMail accessToken userID mimeMessage =
    Some ("sendMail failed: " +:+ Status resp +:+
          String "010"%char (rdBytes (RespBody resp))).
Proof.
  intros Hreq HDo Hs. unfold sendRawMimeMail. rewrite Hreq.
  unfold sendMail_request in HDo. rewrite HDo.
  by destruct (Z.eqb_spec (StatusCode resp) StatusAccepted).
Qed.

(** X10.  An error that ends the read of the reply's body is dropped: the
    outcome of a send is the same as if the body had ended where the read
    stopped. *)
Theorem sendRawMimeMail_read_error_dropped (reply : Response) (e : option string)
    (accessToken userID mimeMessage : string) :
  sendRawMimeMail
    (W := httpReplying (inr {| StatusCode := StatusCode reply; Status := Status reply;
                               RespBody := {| rdBytes := rdBytes (RespBody reply);
                                              rdErr := e |} |}))
    accessToken userID mimeMessage
  = sendRawMimeMail (W := httpReplying (inr reply)) accessToken userID mimeMessage.
Proof. unfold sendRawMimeMail. simpl. by destruct (_ =? _)%Z. Qed.

(** The whole result of a call on which the token source fails. *)
Lemma getCachedToken_failure_state (GetToken : list string → string + AccessToken)
    (now : Z) (h : GraphMailHandler) (e : string) :
  GetToken scope = inl e →
  contacts GetToken now h ≠ [] →
  getCachedToken GetToken now h = (("", Some (Errorf_w "GetToken" e)), h, [scope]).
Proof.
  intros He Hc. apply getCachedToken_contacts in Hc. unfold getCachedToken.
  assert (bool_decide (token h = "") || (now >? wrap64 (tokenExp h - 60))%Z = true)
    as -> by (destruct Hc; [by rewrite bool_decide_true|
                            apply orb_true_iff; right; apply Z.gtb_lt; lia]).
  by rewrite He.
Qed.

Section Relaying.
Context `{NM : NetMail}.

(** X11.  When the token source fails, [message] gives up with the source's
    error, wrapped twice, and the cache as it was; the relay API plays no
    part in the outcome. *)
Theorem GraphMailHandler_message_no_token (cfg : Config) (now : Z)
    (GetToken : list string → string + AccessToken) (http : NetHTTP)
    (range : gmap string (list string) → list string)
    (h : GraphMailHandler) (msg : Message) (e : string) :
  contacts GetToken now h ≠ [] →
  GetToken scope = inl e →
  GraphMailHandler_message cfg
    {| wNow := now; wGetToken := GetToken; wHTTP := http; wRange := range |} h msg
  = (Some ("getCachedToken: GetToken: " +:+ e), h).
Proof.
  intros Hc He. unfold GraphMailHandler_message. simpl.
  pose proof (getCachedToken_failure_state GetToken now h e He Hc) as ->. done.
Qed.

(** X12.  A token that was refreshed stays in the cache when the send that
    follows fails. *)
Theorem GraphMailHandler_message_keeps_token (cfg : Config) (w : GraphWorld)
    (h : GraphMailHandler) (msg : Message) (tok : AccessToken) (mime e : string) :
  contacts (wGetToken w) (wNow w) h ≠ [] →
  wGetToken w scope = inr tok →
  encodeMailMessage (wRange w (Header msg)) msg = inr mime →
  sendRawMimeMail (W := wHTTP w) (Token tok) (SenderEmail cfg) mime = Some e →
  GraphMailHandler_message cfg w h msg
  = (Some ("sendRawMimeMail: " +:+ e),
     {| token := Token tok; tokenExp := ExpiresOn tok |}).
Proof.
  intros Hc Htok Hm Hsend. unfold GraphMailHandler_message. rewrite Hm.
  apply getCachedToken_contacts in Hc. unfold getCachedToken.
  assert (bool_decide (token h = "")
          || (wNow w >? wrap64 (tokenExp h - 60))%Z = true) as ->
    by (destruct Hc; [by rewrite bool_decide_true|
                      apply orb_true_iff; right; apply Z.gtb_lt; lia]).
  rewrite Htok. simpl. by rewrite Hsend.
Qed.

(** X13.  What the relay API answers to a refused message reaches the SMTP
    client: with a valid token cached, a reply of a status other than 202
    makes [Data] answer 554 5.3.0 with the status line and the body of
    that reply in its text; session and token cache stay as they were. *)
Theorem Data_relay_refused (cfg : Config) (w : GraphWorld) (s : Session)
    (h : GraphMailHandler) (r : Reader) (a : Address) (m : Message)
    (mime : string) (req : Request) (resp : Response) :
  auth s = true → sender s = Some a → recipients s ≠ [] → rdErr r = None →
  Data_parse a (recipients s) (rdBytes r) = Some m →
  token h ≠ "" → int64 (tokenExp h - 60) → (wNow w ≤ tokenExp h - 60)%Z →
  encodeMailMessage (wRange w (Header (Data_reconcile m s))) (Data_reconcile m s)
    = inr mime →
  NewRequestWithContext (NetHTTP := wHTTP w) "POST"
    ("https://graph.microsoft.com/v1.0/users/" +:+ SenderEmail cfg +:+ "/sendMail")
    (EncodeToString (NetHTTP := wHTTP w) mime) = inr req →
  Do (NetHTTP := wHTTP w) (sendMail_request (token h) req) = inr resp →
  StatusCode resp ≠ StatusAccepted →
  Data (H0 := graphHandler cfg w) s h r
  = (Some (newSMTPError 554 (5, 3, 0)%Z
             ("sendRawMimeMail: sendMail failed: " +:+ Status resp +:+
              String "010"%char (rdBytes (RespBody resp)))),
     s, h).
Proof.
  intros Ha Hs Hr He Hp Ht Hi Hn Hm Hreq HDo Hst.
  unfold Data. rewrite Ha, Hs. simpl.
  destruct (recipients s) as [|r0 rs] eqn:Hrs; [done|]. simpl.
  unfold ReadAll. rewrite He, Hp.
  unfold message, graphHandler, GraphMailHandler_message. rewrite Hm.
  unfold getCachedToken. rewrite (wrap64_id _ Hi).
  rewrite bool_decide_false by done.
  destruct (Z.gtb_spec (wNow w) (tokenExp h - 60)); [lia|]. simpl.
  rewrite (sendRawMimeMail_refused (W := wHTTP w) _ _ _ req resp Hreq HDo Hst).
  reflexivity.
Qed.

End Relaying.

(** ** Configuration *)

Lemma digit_range (c : ascii) :
  (48 <=? byte_val c)%Z && (byte_val c <=? 57)%Z = true →
  (0 ≤ byte_val c - 48 ≤ 9)%Z.
Proof. intros [?%Z.leb_le ?%Z.leb_le]%andb_true_iff. lia. Qed.

Lemma decimalFrom_ge (s : string) : ∀ n,
  digits s = true → (0 ≤ n)%Z → (n ≤ decimalFrom n s)%Z.
Proof.
  induction s as [|c s IH]; intros n Hd Hn; simpl in *; [lia|].
  apply andb_true_iff in Hd as [Hc Hd]. apply digit_range in Hc.
  specialize (IH (n * 10 + (byte_val c - 48))%Z Hd). lia.
Qed.

(** The loop accepts exactly the digit strings whose number does not pass
    [maxVal], and gives that number. *)
Lemma parseLoop_decimal (maxVal : Z) (s : string) : ∀ n u,
  (0 ≤ n ≤ maxVal)%Z → (maxVal ≤ strconv.maxUint64)%Z →
  strconv.parseLoop maxVal n s = Some u ↔
  digits s = true ∧ decimalFrom n s = u ∧ (u ≤ maxVal)%Z.
Proof.
  assert (Hcut : strconv.cutoff = 1844674407370955162%Z) by reflexivity.
  assert (Hmax : strconv.maxUint64 = 18446744073709551615%Z) by reflexivity.
  induction s as [|c s IH]; intros n u Hn Hm; simpl.
  - split; [intros [= <-]; split_and!; [done|done|lia]|by intros (_ & -> & _)].
  - destruct ((48 <=? byte_val c)%Z && (byte_val c <=? 57)%Z) eqn:Hc; simpl;
      [|split; [done|by intros [? _]]].
    pose proof (digit_range c Hc) as Hd. rewrite Hcut.
    change (2 ^ 64)%Z with 18446744073709551616%Z.
    destruct (Z.geb_spec n 1844674407370955162) as [Hge|Hlt].
    { split; [done|]. intros (Hds & <- & Hle).
      pose proof (decimalFrom_ge s (n * 10 + (byte_val c - 48))%Z Hds). lia. }
    rewrite (Z.mod_small (n * 10)) by lia.
    destruct (Z_lt_le_dec (n * 10 + (byte_val c - 48)) 18446744073709551616)
      as [Hsmall|Hbig].
    + rewrite (Z.mod_small (n * 10 + (byte_val c - 48))) by lia.
      destruct (Z.ltb_spec (n * 10 + (byte_val c - 48)) (n * 10)) as [?|_]; [lia|].
      simpl.
      destruct (Z.gtb_spec (n * 10 + (byte_val c - 48)) maxVal) as [Hgt|Hle].
      * split; [done|]. intros (Hds & <- & Hle).
        pose proof (decimalFrom_ge s (n * 10 + (byte_val c - 48))%Z Hds). lia.
      * apply IH; lia.
    + assert (((n * 10 + (byte_val c - 48)) mod 18446744073709551616
               = n * 10 + (byte_val c - 48) - 18446744073709551616)%Z) as ->.
      { symmetry. apply (Z.mod_unique_pos _ _ 1); lia. }
      destruct (Z.ltb_spec (n * 10 + (byte_val c - 48) - 18446744073709551616)
                  (n * 10)) as [_|?]; [|lia].
      simpl. split; [done|]. intros (Hds & <- & Hle).
      pose proof (decimalFrom_ge s (n * 10 + (byte_val c - 48))%Z Hds). lia.
Qed.

(** [ParseUint] on 64 bits (also when [bitSize] is 0) accepts exactly the
    non-empty digit strings of a number below 2^64. *)
Lemma ParseUint_decimal (s : string) (bitSize : Z) (u : Z) :
  bitSize = 0%Z ∨ bitSize = 64%Z →
  strconv.ParseUint s bitSize = Some u ↔
  s ≠ "" ∧ digits s = true ∧ decimal s = u ∧ (u < 2 ^ 64)%Z.
Proof.
  intros Hb. unfold strconv.ParseUint, decimal.
  case_bool_decide as Hs; [split; [done|by intros [? _]]|].
  assert ((if (bitSize =? 0)%Z then strconv.IntSize else bitSize) = 64%Z) as ->
    by (destruct Hb as [-> | ->]; reflexivity).
  simpl. rewrite parseLoop_decimal by (unfold strconv.maxUint64; lia).
  split; [intros (? & ? & ?)|intros (_ & ? & ? & ?)]; split_and!; try done; lia.
Qed.

(** X15.  [getenvInt64] and, on 64 bits, [getenvInt]: the default stands when
    the variable is unset or empty, is not a string of digits, or writes
    zero or a number of 2^64 or more.  A number below 2^63 is returned as
    it is; a number from 2^63 up to 2^64 is accepted too and comes back
    negative, less 2^64. *)
Theorem getenvInt64_value (env : gmap string string) (key : string) (def : Z) :
  let val := Getenv env key in
  let r := config.getenvInt64 env key def in
  config.getenvInt env key def = r
  ∧ (val = "" ∨ digits val = false ∨ decimal val = 0%Z ∨ (2 ^ 64 ≤ decimal val)%Z →
     r = def)
  ∧ (val ≠ "" → digits val = true → (0 < decimal val < 2 ^ 63)%Z → r = decimal val)
  ∧ (val ≠ "" → digits val = true → (2 ^ 63 ≤ decimal val < 2 ^ 64)%Z →
     r = (decimal val - 2 ^ 64)%Z ∧ (r < 0)%Z).
Proof.
  intros val r. subst r. unfold config.getenvInt, config.getenvInt64. fold val.
  assert (H0 : strconv.ParseUint val 0 = strconv.ParseUint val 64).
  { destruct (strconv.ParseUint val 64) as [u|] eqn:H64.
    - apply ParseUint_decimal; [auto|]. by apply (ParseUint_decimal val 64); [auto|].
    - destruct (strconv.ParseUint val 0) as [u|] eqn:H0'; [|done].
      apply ParseUint_decimal in H0'; [|auto].
      apply (ParseUint_decimal val 64) in H0'; [|auto]. congruence. }
  rewrite H0. split; [done|].
  case_bool_decide as Hv.
  { split_and!; [done|done..]. }
  destruct (strconv.ParseUint val 64) as [u|] eqn:Hp.
  - apply ParseUint_decimal in Hp as (_ & Hd & Hu & Hlt); [|auto]. subst u.
    assert (0 ≤ decimal val)%Z as Hnn by (by apply decimalFrom_ge).
    destruct (Z.eqb_spec (decimal val) 0) as [Hz|Hnz].
    { split_and!; [done|intros; lia..]. }
    split_and!.
    + intros [?|[?|[?|?]]]; [done|congruence|done|lia].
    + intros _ _ Hr. apply wrap64_id. unfold int64. lia.
    + intros _ _ Hr.
      assert (wrap64 (decimal val) = decimal val - 2 ^ 64)%Z as ->; [|lia].
      unfold wrap64.
      assert ((decimal val + 2 ^ 63) mod 2 ^ 64 = decimal val + 2 ^ 63 - 2 ^ 64)%Z
        as ->; [|lia].
      symmetry. apply (Z.mod_unique_pos _ _ 1); lia.
  - split_and!; [done| |].
    + intros _ Hd Hr. exfalso.
      assert (strconv.ParseUint val 64 = Some (decimal val)) as Hs; [|congruence].
      apply ParseUint_decimal; [auto|]. split_and!; [done..|lia].
    + intros _ Hd Hr. exfalso.
      assert (strconv.ParseUint val 64 = Some (decimal val)) as Hs; [|congruence].
      apply ParseUint_decimal; [auto|]. split_and!; [done..|lia].
Qed.

Lemma getenvInt64_value_witness :
  config.getenvInt64 testEnv "SMTP_MAX_RECIPIENTS" 50 = (decimal "9223372036854775808" - 2 ^ 64)%Z
  ∧ (config.getenvInt64 testEnv "SMTP_MAX_RECIPIENTS" 50 < 0)%Z.
Proof.
  apply (proj2 (proj2 (proj2 (getenvInt64_value testEnv "SMTP_MAX_RECIPIENTS" 50)))).
  - vm_compute. discriminate.
  - vm_compute. reflexivity.
  - vm_compute. split; [discriminate|reflexivity].
Defined.

Lemma missing_filter (P : string → Prop) `{!∀ x, Decision (P x)} (order : list string) :
  ∀ acc, foldl (λ missing name,
                  if bool_decide (P name) then missing ++ [name] else missing)
               acc order
         = acc ++ filter P order.
Proof.
  induction order as [|name order IH]; intros acc; simpl.
  - by rewrite app_nil_r.
  - rewrite IH, filter_cons. case_bool_decide.
    + rewrite decide_True by done. by rewrite <- app_assoc.
    + by rewrite decide_False.
Qed.

Lemma filter_ext_in (P Q : string → Prop) `{!∀ x, Decision (P x)}
    `{!∀ x, Decision (Q x)} (l : list string) :
  (∀ x, x ∈ l → P x ↔ Q x) → filter P l = filter Q l.
Proof.
  induction l as [|x l IH]; intros Hext; [done|].
  rewrite !filter_cons.
  pose proof (Hext x ltac:(by left)) as Hx.
  rewrite IH by (intros y Hy; apply Hext; by right).
  destruct (decide (P x)), (decide (Q x)); tauto.
Qed.

Lemma getenv_nonempty env key def : def ≠ "" → config.getenv env key def ≠ "".
Proof. intros Hd. unfold config.getenv. by case_bool_decide. Qed.

Lemma getenvDuration_positive `{TL : TimeLib} env key def :
  (0 < def)%Z → (0 < config.getenvDuration env key def)%Z.
Proof.
  intros Hd. unfold config.getenvDuration. case_bool_decide; [done|].
  destruct (ParseDuration _) as [d|]; [|done].
  destruct (Z.leb_spec d 0); lia.
Qed.

Lemma wrap64_nonzero (u : Z) : (0 < u < 2 ^ 64)%Z → wrap64 u ≠ 0%Z.
Proof.
  intros Hu. destruct (Z_lt_le_dec u (2 ^ 63)) as [Hlt|Hge].
  - rewrite wrap64_id by (unfold int64; lia). lia.
  - unfold wrap64.
    assert ((u + 2 ^ 63) mod 2 ^ 64 = u + 2 ^ 63 - 2 ^ 64)%Z as ->; [|lia].
    symmetry. apply (Z.mod_unique_pos _ _ 1); lia.
Qed.

Lemma getenvInt64_nonzero env key def :
  def ≠ 0%Z → config.getenvInt64 env key def ≠ 0%Z ∧ config.getenvInt env key def ≠ 0%Z.
Proof.
  intros Hd. unfold config.getenvInt64, config.getenvInt.
  case_bool_decide; [done|].
  assert (Hnz : ∀ b, b = 0%Z ∨ b = 64%Z →
            match strconv.ParseUint (Getenv env key) b with
            | Some u => if (u =? 0)%Z then def else wrap64 u
            | None => def
            end ≠ 0%Z).
  { intros b Hb. destruct (strconv.ParseUint _ b) as [u|] eqn:Hp; [|done].
    apply ParseUint_decimal in Hp as (_ & Hdg & Hu & Hlt); [|done].
    destruct (Z.eqb_spec u 0); [done|]. apply wrap64_nonzero.
    pose proof (decimalFrom_ge _ 0%Z Hdg ltac:(lia)). unfold decimal in Hu. lia. }
  split; apply Hnz; auto.
Qed.

Section Loading.
Context `{TL : TimeLib}.

Lemma LoadConfig_missing (order : list string) (env : gmap string string) :
  order ≡ₚ config.requiredNames →
  ∃ cfg,
    config.SenderEmail cfg = Getenv env "SENDER_EMAIL"
    ∧ config.SenderPassword cfg = Getenv env "SENDER_PASSWORD"
    ∧ config.EntraClientID cfg = Getenv env "ENTRA_CLIENT_ID"
    ∧ config.EntraTenantID cfg = Getenv env "ENTRA_TENANT_ID"
    ∧ config.EntraClientSecret cfg = Getenv env "ENTRA_CLIENT_SECRET"
    ∧ config.SentryDSN cfg = Getenv env "SENTRY_DSN"
    ∧ config.SMTPAddr cfg ≠ "" ∧ config.SMTPDomain cfg ≠ ""
    ∧ (0 < config.WriteTimeout cfg)%Z ∧ (0 < config.ReadTimeout cfg)%Z
    ∧ config.MaxMessageBytes cfg ≠ 0%Z ∧ config.MaxRecipients cfg ≠ 0%Z
    ∧ config.LoadConfig order env =
        match filter (λ name, Getenv env name = "") order with
        | [] => inr cfg
        | missing =>
            inl ("missing required environment variable(s): " +:+ Join missing ", ")
        end.
Proof.
  intros Hperm. exists (envConfig env). split_and!; [reflexivity..| | | | | | |].
  7: {
    unfold config.LoadConfig. fold (envConfig env).
    rewrite (missing_filter (λ name, config.required _ !!! name = "")). simpl app.
    rewrite (filter_ext_in _ (λ name, Getenv env name = "")).
    - destruct (filter _ order); reflexivity.
    - intros name Hin. rewrite Hperm in Hin. unfold config.requiredNames in Hin.
      repeat (apply elem_of_cons in Hin as [->|Hin]); [..|by apply elem_of_nil in Hin];
        unfold config.required; simpl;
        rewrite ?lookup_total_insert_ne by done; by rewrite lookup_total_insert_eq. }
  - by apply getenv_nonempty.
  - by apply getenv_nonempty.
  - apply getenvDuration_positive. reflexivity.
  - apply getenvDuration_positive. reflexivity.
  - by apply getenvInt64_nonzero.
  - by apply getenvInt64_nonzero.
Qed.

(** X16.  [LoadConfig] succeeds exactly when the five required variables are
    all set and not empty.  Otherwise its error names the variables that
    are missing, each once, in the order of the range over the map. *)
Theorem LoadConfig_required (order : list string) (env : gmap string string) :
  order ≡ₚ config.requiredNames →
  let missing := filter (λ name, Getenv env name = "") order in
  ((∃ cfg, config.LoadConfig order env = inr cfg) ↔
   ∀ name, name ∈ config.requiredNames → Getenv env name ≠ "")
  ∧ (missing ≠ [] →
     config.LoadConfig order env =
       inl ("missing required environment variable(s): " +:+ Join missing ", "))
  ∧ NoDup missing
  ∧ (∀ name, name ∈ missing ↔ name ∈ config.requiredNames ∧ Getenv env name = "").
Proof.
  intros Hperm missing.
  destruct (LoadConfig_missing order env Hperm) as (cfg & _ & _ & _ & _ & _ & _ & _ & _
                                                    & _ & _ & _ & _ & Hload).
  fold missing in Hload.
  assert (Hin : ∀ name, name ∈ missing ↔
                        name ∈ config.requiredNames ∧ Getenv env name = "").
  { intros name. unfold missing. rewrite list_elem_of_filter, Hperm. tauto. }
  split_and!.
  - split.
    + intros [cfg' Hok] name Hname Hempty.
      assert (name ∈ missing) as Hm by (by apply Hin).
      rewrite Hload in Hok. destruct missing; [by apply elem_of_nil in Hm|done].
    + intros Hall. exists cfg. rewrite Hload.
      destruct missing as [|name l] eqn:Hm; [done|].
      assert (name ∈ name :: l) as Hn by (by left).
      apply Hin in Hn as [Hn He]. by destruct (Hall name Hn).
  - intros Hne. rewrite Hload. by destruct missing.
  - unfold missing. apply NoDup_filter. rewrite Hperm.
    unfold config.requiredNames.
    refine (bool_decide_unpack (NoDup _) _). vm_compute. exact I.
  - exact Hin.
Qed.

(** X17.  A configuration that loads is fit for use: the required values are
    the variables' and are not empty, the listen address and the domain
    are not empty, both timeouts are positive, and the two limits are not
    zero. *)
Theorem LoadConfig_loaded (order : list string) (env : gmap string string)
    (cfg : config.Config) :
  order ≡ₚ config.requiredNames →
  config.LoadConfig order env = inr cfg →
  config.SenderEmail cfg = Getenv env "SENDER_EMAIL" ∧ config.SenderEmail cfg ≠ ""
  ∧ config.SenderPassword cfg = Getenv env "SENDER_PASSWORD"
  ∧ config.SenderPassword cfg ≠ ""
  ∧ config.EntraClientID cfg ≠ "" ∧ config.EntraTenantID cfg ≠ ""
  ∧ config.EntraClientSecret cfg ≠ ""
  ∧ config.SMTPAddr cfg ≠ "" ∧ config.SMTPDomain cfg ≠ ""
  ∧ (0 < config.WriteTimeout cfg)%Z ∧ (0 < config.ReadTimeout cfg)%Z
  ∧ config.MaxMessageBytes cfg ≠ 0%Z ∧ config.MaxRecipients cfg ≠ 0%Z.
Proof.
  intros Hperm Hok.
  destruct (LoadConfig_missing order env Hperm)
    as (cfg' & He & Hp & Hc & Ht & Hs & _ & Ha & Hd & Hw & Hr & Hb & Hn & Hload).
  rewrite Hload in Hok.
  destruct (filter _ order) as [|x l] eqn:Hf; [|done]. injection Hok as <-.
  assert (Hset : ∀ name, name ∈ config.requiredNames → Getenv env name ≠ "").
  { intros name Hname Hempty.
    assert (name ∈ filter (λ name, Getenv env name = "") order) as Hm
      by (apply list_elem_of_filter; by rewrite Hperm).
    rewrite Hf in Hm. by apply elem_of_nil in Hm. }
  rewrite He, Hp, Hc, Ht, Hs.
  split_and!; try done; apply Hset; unfold config.requiredNames;
    rewrite !elem_of_cons; tauto.
Qed.

End Loading.

(** X18.  With a configuration that loaded, an empty username or an empty
    password never authenticates. *)
Theorem no_empty_credentials `{TL : TimeLib} (order : list string)
    (env : gmap string string) (cfg : config.Config)
    (mech : string) (s : Session) (i u p : string) :
  order ≡ₚ config.requiredNames →
  config.LoadConfig order env = inr cfg →
  u = "" ∨ p = "" →
  Auth (sessionConfig cfg) mech s i u p
  = (Some (EText "invalid username or password"), s).
Proof.
  intros Hperm Hok Hempty.
  destruct (LoadConfig_missing order env Hperm)
    as (cfg' & He & Hp & _ & _ & _ & _ & _ & _ & _ & _ & _ & _ & Hload).
  rewrite Hload in Hok.
  destruct (filter _ order) as [|x l] eqn:Hf; [|done]. injection Hok as <-.
  assert (Hset : ∀ name, name ∈ config.requiredNames → Getenv env name ≠ "").
  { intros name Hname Hn.
    assert (name ∈ filter (λ name, Getenv env name = "") order) as Hm
      by (apply list_elem_of_filter; by rewrite Hperm).
    rewrite Hf in Hm. by apply elem_of_nil in Hm. }
  destruct (Auth_cases (sessionConfig cfg') mech s i u p)
    as [(Hu & Hpw & _)|[_ ->]]; [|done].
  exfalso. simpl in Hu, Hpw. rewrite He in Hu. rewrite Hp in Hpw.
  destruct Hempty as [-> | ->].
  - apply (Hset "SENDER_EMAIL"); [|done].
    unfold config.requiredNames. rewrite !elem_of_cons. tauto.
  - apply (Hset "SENDER_PASSWORD"); [|done].
    unfold config.requiredNames. rewrite !elem_of_cons. tauto.
Qed.

(** ** Where the envelope comes from *)

Section Envelope.
Context `{NM : NetMail} {H : Type} `{HH : !Handler H}.

(** X5.  The envelope holds nothing the client did not send: in every state a
    dialogue reaches, the sender is the parse of the address of one of its
    MAIL commands and every recipient the parse of the address of one of
    its RCPT commands. *)
Theorem envelope_from_commands (cfg : Config) (cs : list Command) (hd : H) :
  let s := (run cfg cs (NewSession, hd)).1 in
  (∀ a, sender s = Some a → ∃ from, CMail from ∈ cs ∧ ParseAddress from = Some a)
  ∧ (∀ r, r ∈ recipients s → ∃ to, CRcpt to ∈ cs ∧ ParseAddress to = Some r).
Proof.
  induction cs as [|c cs IH] using rev_ind.
  - simpl. split; [done|]. intros r Hr. by apply elem_of_nil in Hr.
  - simpl in IH. destruct IH as [IHs IHr].
    assert (Hs' : ∀ a, sender (run cfg cs (NewSession, hd)).1 = Some a →
              ∃ from, CMail from ∈ cs ++ [c] ∧ ParseAddress from = Some a).
    { intros a Ha. destruct (IHs a Ha) as (from & Hin & Hp).
      exists from. split; [|done]. apply elem_of_app. by left. }
    assert (Hr' : ∀ r, r ∈ recipients (run cfg cs (NewSession, hd)).1 →
              ∃ to, CRcpt to ∈ cs ++ [c] ∧ ParseAddress to = Some r).
    { intros r Hr. destruct (IHr r Hr) as (to & Hin & Hp).
      exists to. split; [|done]. apply elem_of_app. by left. }
    simpl. rewrite run_snoc.
    destruct (run cfg cs (NewSession, hd)) as [s hd0]. simpl in *.
    destruct c as [i u p|from|to|r| |]; simpl.
    + destruct (Auth_cases cfg "PLAIN" s i u p) as [(_ & _ & ->)|[_ ->]]; done.
    + destruct (Mail_cases s from) as [[e ->]|(addr & _ & _ & Hr & Hp & ->)];
        [done|]. simpl. split; [|done].
      intros a [= <-]. exists from. split; [|done].
      apply elem_of_app. right. by left.
    + destruct (Rcpt_cases s to) as [[e ->]|(addr & _ & _ & Hp & ->)]; [done|].
      simpl. split; [done|].
      intros r [Hr|Hr%list_elem_of_singleton]%elem_of_app; [by apply Hr'|].
      subst r. exists to. split; [|done]. apply elem_of_app. right. by left.
    + pose proof (Data_session s hd0 r) as Hd.
      destruct (Data s hd0 r) as [[e s'] hd']. simpl in *. by subst.
    + split; [done|]. intros r Hr. by apply elem_of_nil in Hr.
    + done.
Qed.

(** X14.  With a valid token cached and the relay API answering 202, [Data]
    accepts the message; session and token cache stay as they were. *)
Theorem Data_relay_accepted (cfg : Config) (w : GraphWorld) (s : Session)
    (h : GraphMailHandler) (r : Reader) (a : Address) (m : Message)
    (mime : string) (req : Request) (resp : Response) :
  auth s = true → sender s = Some a → recipients s ≠ [] → rdErr r = None →
  Data_parse a (recipients s) (rdBytes r) = Some m →
  token h ≠ "" → int64 (tokenExp h - 60) → (wNow w ≤ tokenExp h - 60)%Z →
  encodeMailMessage (wRange w (Header (Data_reconcile m s))) (Data_reconcile m s)
    = inr mime →
  NewRequestWithContext (NetHTTP := wHTTP w) "POST"
    ("https://graph.microsoft.com/v1.0/users/" +:+ SenderEmail cfg +:+ "/sendMail")
    (EncodeToString (NetHTTP := wHTTP w) mime) = inr req →
  Do (NetHTTP := wHTTP w) (sendMail_request (token h) req) = inr resp →
  StatusCode resp = StatusAccepted →
  Data (H0 := graphHandler cfg w) s h r = (None, s, h).
Proof.
  intros Ha Hs Hr He Hp Ht Hi Hn Hm Hreq HDo Hst.
  unfold Data. rewrite Ha, Hs. simpl.
  destruct (recipients s) as [|r0 rs] eqn:Hrs; [done|]. simpl.
  unfold ReadAll. rewrite He, Hp.
  unfold message, graphHandler, GraphMailHandler_message. rewrite Hm.
  unfold getCachedToken. rewrite (wrap64_id _ Hi).
  rewrite bool_decide_false by done.
  destruct (Z.gtb_spec (wNow w) (tokenExp h - 60)); [lia|]. simpl.
  unfold sendRawMimeMail. rewrite Hreq. unfold sendMail_request in HDo.
  rewrite HDo, Hst. reflexivity.
Qed.

End Envelope.

(** A relay API that accepts. *)
Lemma Data_relay_accepted_witness :
  Data (NM := SimpleMail.netMail)
       (H0 := graphHandler testConfig (testWorld (inr accepted)))
       openSession cachedHandler (bytesReader testMessage)
  = (None, openSession, cachedHandler).
Proof.
  refine (Data_relay_accepted (NM := SimpleMail.netMail) testConfig
            (testWorld (inr accepted)) openSession cachedHandler
            (bytesReader testMessage) {| Name := ""; Addr := "sender@example.com" |}
            _ _ _ accepted
            eq_refl eq_refl _ eq_refl _ _ _ _ eq_refl eq_refl eq_refl eq_refl).
  - vm_compute. discriminate.
  - vm_compute. reflexivity.
  - discriminate.
  - unfold int64. simpl. lia.
  - simpl. lia.
Defined.

(** ** The further properties at work *)

Lemma no_relay_without_credentials_witness :
  (run (NM := SimpleMail.netMail) testConfig intruderDialogue
       (NewSession, testHandler)).2 = testHandler.
Proof.
  apply (no_relay_without_credentials (NM := SimpleMail.netMail) testConfig
           intruderDialogue testHandler).
  unfold intruderDialogue. rewrite !Exists_cons, Exists_nil. simpl.
  intros [[_ Hp]|[[]|[[]|[[]|[]]]]]. discriminate Hp.
Defined.

Lemma Rcpt_accumulates_witness :
  run (NM := SimpleMail.netMail) testConfig
      (CRcpt <$> ["a@example.com"; "a@example.com"]) (openSession, testHandler)
  = ({| auth := true; sender := sender openSession;
        recipients := recipients openSession
                      ++ [{| Name := ""; Addr := "a@example.com" |};
                          {| Name := ""; Addr := "a@example.com" |}] |},
     testHandler).
Proof.
  apply (Rcpt_accumulates (NM := SimpleMail.netMail) testConfig
           ["a@example.com"; "a@example.com"]
           [{| Name := ""; Addr := "a@example.com" |};
            {| Name := ""; Addr := "a@example.com" |}] openSession testHandler).
  - reflexivity.
  - vm_compute. eauto.
  - vm_compute. reflexivity.
Defined.

Lemma next_transaction_needs_Reset_witness :
  ∃ e, Mail (NM := SimpleMail.netMail) openSession "other@example.com"
       = (Some e, openSession)
       ∧ classify e = Some SequenceError.
Proof.
  refine (proj1 (next_transaction_needs_Reset (NM := SimpleMail.netMail)
                   (H := mockHandler) (HH := mockHandler_message)
                   openSession testHandler (bytesReader testMessage) openSession
                   (Data (NM := SimpleMail.netMail) openSession testHandler
                         (bytesReader testMessage)).2 _) "other@example.com").
  vm_compute. reflexivity.
Defined.

Lemma GraphMailHandler_message_no_token_witness :
  GraphMailHandler_message testConfig
    {| wNow := 5000; wGetToken := λ _, inl "no route";
       wHTTP := httpReplying (inl "unused"); wRange := λ h, (map_to_list h).*1 |}
    cachedHandler {| Header := headerOf twoBccLines; Body := "hi" |}
  = (Some "getCachedToken: GetToken: no route", cachedHandler).
Proof.
  apply (GraphMailHandler_message_no_token testConfig 5000
           (λ _, inl "no route") (httpReplying (inl "unused"))
           (λ h, (map_to_list h).*1) cachedHandler
           {| Header := headerOf twoBccLines; Body := "hi" |} "no route").
  - vm_compute. discriminate.
  - reflexivity.
Defined.

Lemma GraphMailHandler_message_keeps_token_witness :
  GraphMailHandler_message testConfig (testWorld (inl "connection reset"))
    NewGraphMailHandler {| Header := headerOf twoBccLines; Body := "hi" |}
  = (Some "sendRawMimeMail: http.Do: connection reset",
     {| token := "granted"; tokenExp := 4600 |}).
Proof.
  refine (GraphMailHandler_message_keeps_token testConfig
            (testWorld (inl "connection reset")) NewGraphMailHandler
            {| Header := headerOf twoBccLines; Body := "hi" |}
            {| Token := "granted"; ExpiresOn := 4600 |} _ "http.Do: connection reset"
            _ eq_refl eq_refl _).
  - vm_compute. discriminate.
  - vm_compute. reflexivity.
Defined.

Lemma Data_relay_refused_witness :
  Data (NM := SimpleMail.netMail)
       (H0 := graphHandler testConfig (testWorld (inr (refusal 3))))
       openSession cachedHandler (bytesReader testMessage)
  = (Some (newSMTPError 554 (5, 3, 0)%Z
             ("sendRawMimeMail: sendMail failed: 500 Internal Server Error"
              +:+ String "010"%char "xxx")),
     openSession, cachedHandler).
Proof.
  refine (Data_relay_refused (NM := SimpleMail.netMail) testConfig
            (testWorld (inr (refusal 3))) openSession cachedHandler
            (bytesReader testMessage) {| Name := ""; Addr := "sender@example.com" |}
            _ _ _ (refusal 3)
            eq_refl eq_refl _ eq_refl _ _ _ _ eq_refl eq_refl eq_refl _).
  - vm_compute. discriminate.
  - vm_compute. reflexivity.
  - discriminate.
  - unfold int64. simpl. lia.
  - simpl. lia.
  - vm_compute. discriminate.
Defined.

Lemma LoadConfig_required_witness :
  config.LoadConfig (TL := secondsOnly) config.requiredNames
    (delete "SENDER_PASSWORD" (delete "ENTRA_TENANT_ID" testEnv))
  = inl "missing required environment variable(s): SENDER_PASSWORD, ENTRA_TENANT_ID".
Proof.
  refine (eq_trans
            (proj1 (proj2 (LoadConfig_required (TL := secondsOnly) config.requiredNames
                             (delete "SENDER_PASSWORD" (delete "ENTRA_TENANT_ID" testEnv))
                             (reflexivity _))) _) _).
  - vm_compute. discriminate.
  - vm_compute. reflexivity.
Defined.

Lemma LoadConfig_loaded_witness :
  (0 < config.ReadTimeout (envConfig (TL := secondsOnly) testEnv))%Z
  ∧ config.ReadTimeout (envConfig (TL := secondsOnly) testEnv) = (5 * Second)%Z.
Proof.
  split; [|vm_compute; reflexivity].
  apply (LoadConfig_loaded (TL := secondsOnly) config.requiredNames testEnv
           (envConfig (TL := secondsOnly) testEnv) (reflexivity _)
           ltac:(vm_compute; reflexivity)).
Defined.

Lemma no_empty_credentials_witness :
  Auth (sessionConfig (envConfig (TL := secondsOnly) testEnv)) "PLAIN" NewSession
       "" "sender@example.com" ""
  = (Some (EText "invalid username or password"), NewSession).
Proof.
  apply (no_empty_credentials (TL := secondsOnly) config.requiredNames testEnv
           (envConfig (TL := secondsOnly) testEnv) "PLAIN" NewSession ""
           "sender@example.com" "" (reflexivity _) ltac:(vm_compute; reflexivity)).
  by right.
Defined.
